(** * uv-metrics: reporters and readers over memory, file and relational stores

    A shallow embedding of

      - [uv/reporter/store.py]  (LambdaReporter, MemoryReporter),
      - [uv/fs/reader.py]       (FSReader),
      - [uv/sql/reporter.py]    (SQLReporter, SQLReader),

    followed by the properties of the read/write contract that these
    backends are expected to satisfy.

    Python objects that are mutated in place (the backing dict of the memory
    reporter, the rows of the sqlite store, the files of a filesystem) are
    threaded explicitly: a method that writes takes the state and returns the
    new one, a method that only reads takes the state.  A method that can
    raise returns a [result]. *)

From Stdlib Require Import ZArith.
From Stdlib.Strings Require Import Byte.
From Stdlib.Floats Require Import SpecFloat.
From stdpp Require Import base option strings list gmap sorting.

Local Open Scope Z_scope.
Local Open Scope string_scope.
Local Open Scope list_scope.

(** ** Python runtime: exceptions and results *)

Inductive exn : Type :=
| Exception (msg : string)
| ValueError (msg : string)
| RecursionError
| ResourceNotFound (path : string)
| UnicodeDecodeError
| JSONDecodeError
| OverflowError
| OperationalError (msg : string).

Inductive result (A : Type) : Type :=
| Return (a : A)
| Raise (e : exn).
Arguments Return {A} a.
Arguments Raise {A} e.

#[global] Instance result_ret : MRet result := λ A a, Return a.
#[global] Instance result_bind : MBind result := λ A B k r,
  match r with
  | Return a => k a
  | Raise e => Raise e
  end.

#[global] Instance exn_eq_dec : EqDecision exn.
Proof. solve_decision. Defined.

#[global] Instance result_eq_dec {A} `{EqDecision A} : EqDecision (result A).
Proof. solve_decision. Defined.

(** A list comprehension whose body may raise: the first exception aborts it. *)
Fixpoint comprehension {A B} (f : A → result B) (l : list A) : result (list B) :=
  match l with
  | [] => Return []
  | x :: l' => y ← f x; ys ← comprehension f l'; Return (y :: ys)
  end.

(** A [for] loop over a list whose body updates a state and may raise. *)
Fixpoint for_each {A S} (body : A → S → result S) (l : list A) (s : S) : result S :=
  match l with
  | [] => Return s
  | x :: l' => s' ← body x s; for_each body l' s'
  end.

(** ** [uv/types.py]: keys and metric values

    [t.Metric] is [Any] in the source; the values that flow through the
    reporters are JSON-compatible Python values.  A [dict] is kept as the list
    of its items, in insertion order. *)

Module t.

Abbreviation MetricKey := string (only parsing).

#[warnings="-register-all"] Inductive Metric : Type :=
| PyNone
| PyBool (b : bool)
| PyInt (n : Z)
| PyFloat (x : spec_float)
| PyStr (s : string)
| PyList (l : list Metric)
| PyDict (d : list (string * Metric)).

End t.

#[global] Instance spec_float_eq_dec : EqDecision spec_float.
Proof. solve_decision. Defined.

Fixpoint Metric_eq_dec (x y : t.Metric) {struct x} : Decision (x = y).
Proof.
  refine
    (match x, y with
     | t.PyNone, t.PyNone => left eq_refl
     | t.PyBool a, t.PyBool b => cast_if (decide (a = b))
     | t.PyInt a, t.PyInt b => cast_if (decide (a = b))
     | t.PyFloat a, t.PyFloat b => cast_if (decide (a = b))
     | t.PyStr a, t.PyStr b => cast_if (decide (a = b))
     | t.PyList a, t.PyList b =>
         cast_if ((fix go (l1 l2 : list t.Metric) {struct l1} : Decision (l1 = l2) :=
                     match l1, l2 with
                     | [], [] => left eq_refl
                     | u :: l1', v :: l2' =>
                         cast_if_and (Metric_eq_dec u v) (go l1' l2')
                     | _, _ => right _
                     end) a b)
     | t.PyDict a, t.PyDict b =>
         cast_if ((fix go (l1 l2 : list (string * t.Metric)) {struct l1}
                   : Decision (l1 = l2) :=
                     match l1, l2 with
                     | [], [] => left eq_refl
                     | (j, u) :: l1', (k, v) :: l2' =>
                         cast_if_and3 (decide (j = k)) (Metric_eq_dec u v) (go l1' l2')
                     | _, _ => right _
                     end) a b)
     | _, _ => right _
     end); clear Metric_eq_dec; try clear go; congruence.
Defined.

#[global] Instance Metric_eq : EqDecision t.Metric := Metric_eq_dec.

(** ** Python built-ins used by the readers *)

#[global] Instance byte_eq_dec : EqDecision byte := Byte.byte_eq_dec.

Definition LF : byte := x0a.
Definition CR : byte := x0d.

(** [bytes.splitlines()]: a line ends at LF, CR or CR LF; the terminators are
    dropped, and no empty line is produced after the last terminator. *)
Fixpoint splitlines (bs : list byte) : list (list byte) :=
  match bs with
  | [] => []
  | b :: rest =>
      if decide (b = LF) then [] :: splitlines rest
      else if decide (b = CR) then
        match rest with
        | c :: rest' =>
            if decide (c = LF) then [] :: splitlines rest'
            else [] :: splitlines rest
        | [] => [[]]
        end
      else
        match splitlines rest with
        | [] => [[b]]
        | line :: lines => (b :: line) :: lines
        end
  end.

(** A line without a terminator in it. *)
Definition terminator_free (line : list byte) : Prop :=
  (LF ∉ line) ∧ (CR ∉ line).

(** [itertools.groupby(iterable, key)]: one group per maximal run of
    consecutive elements with the same key, in order. *)
Fixpoint groupby {A K} `{EqDecision K} (key : A → K) (l : list A)
  : list (K * list A) :=
  match l with
  | [] => []
  | x :: l' =>
      match groupby key l' with
      | (k, g) :: groups =>
          if decide (key x = k) then (k, x :: g) :: groups
          else (key x, [x]) :: (k, g) :: groups
      | [] => [(key x, [x])]
      end
  end.

(** [{k: f(group) for k, group in items}]: items are stored left to right, so
    a later item with the same key replaces an earlier one. *)
Definition dict_comprehension {A B} (f : A → B) (items : list (string * A))
  : gmap string B :=
  foldl (λ d kg, <[kg.1 := f kg.2]> d) ∅ items.

(** ** [uv/reporter/base.py]: the defaults every reporter inherits *)

Module AbstractReporter.
Section defaults.
Context {S : Type}.

(** Modelled from the spec: [uv/reporter/base.py] is not part of the sources.
    By default [report] delegates to the object's own [report_all] with a
    single-entry mapping.  [self_report_all] is the method the call
    [self.report_all] dispatches to. *)
Definition report
    (self_report_all : Z → list (string * t.Metric) → S → result S)
    (step : Z) (k : t.MetricKey) (v : t.Metric) : S → result S :=
  self_report_all step [(k, v)].

(** Modelled from the spec: [uv/reporter/base.py] is not part of the sources.
    By default [report_all] delegates, entry by entry, to the object's own
    [report].  [self_report] is the method the call [self.report] dispatches
    to. *)
Definition report_all
    (self_report : Z → t.MetricKey → t.Metric → S → result S)
    (step : Z) (m : list (string * t.Metric)) : S → result S :=
  for_each (λ kv, self_report step kv.1 kv.2) m.

End defaults.
End AbstractReporter.

(** ** [uv/reader/store.py]: the reader paired with the memory reporter *)

(** A Python dict from keys to lists.  The values of a dict are references:
    [refs] gives the list object a key refers to, [lists] holds the list
    objects by address.  Two keys may refer to the same list object (as in
    [dict.fromkeys(ks, [])]), and appending to it shows under both. *)
Record ListDict : Type := {
  refs : gmap string nat;
  lists : list (list t.Metric)
}.

Module MemoryReader.

(** Modelled from the spec: [uv/reader/store.py] is not part of the sources.
    The reader is a read-only view over the reporter's backing mapping;
    an unknown key reads as the empty series. *)
Definition read (m : ListDict) (k : t.MetricKey) : list t.Metric :=
  match refs m !! k with
  | Some address => default [] (lists m !! address)
  | None => []
  end.

(** Modelled from the spec: [uv/reader/store.py] is not part of the sources.
    Every requested key is present in the result, an unknown one with the
    empty series. *)
Definition read_all (m : ListDict) (ks : list t.MetricKey)
  : gmap string (list t.Metric) :=
  list_to_map ((λ k, (k, read m k)) <$> ks).

End MemoryReader.

(** ** [uv/reporter/store.py] *)

Module LambdaReporter.
Section callbacks.
(** [S] is the state the supplied functions act on. *)
Context {S : Type}.

Record self : Type := Build {
  _report : option (Z → t.MetricKey → t.Metric → S → result S);
  _reportall : option (Z → list (string * t.Metric) → S → result S);
  _close : option (S → result S)
}.

Definition __init__
    (report : option (Z → t.MetricKey → t.Metric → S → result S))
    (report_all : option (Z → list (string * t.Metric) → S → result S))
    (close : option (S → result S)) : result self :=
  match report, report_all with
  | None, None =>
      Raise (ValueError
        "Must supply one of `report` and `report_all` to `LambdaReporter`.")
  | _, _ =>
      Return {| _report := report; _reportall := report_all; _close := close |}
  end.

(** [report] and [report_all] call each other through the inherited defaults;
    [depth] is the number of Python frames still available, and running out
    of them is a [RecursionError]. *)
Fixpoint report (depth : nat) (r : self)
    (step : Z) (k : t.MetricKey) (v : t.Metric) (s : S) : result S :=
  match depth with
  | O => Raise RecursionError
  | Datatypes.S depth' =>
      match _report r with
      | None => AbstractReporter.report (report_all depth' r) step k v s
      | Some f => f step k v s
      end
  end
with report_all (depth : nat) (r : self)
    (step : Z) (m : list (string * t.Metric)) (s : S) : result S :=
  match depth with
  | O => Raise RecursionError
  | Datatypes.S depth' =>
      match _reportall r with
      | None => AbstractReporter.report_all (report depth' r) step m s
      | Some f => f step m s
      end
  end.

Definition close (r : self) (s : S) : result S :=
  match _close r with
  | Some f => f s
  | None => Return s
  end.

End callbacks.
Arguments self : clear implicits.
End LambdaReporter.

Module MemoryReporter.

(** The reporter holds a reference to one dict; that dict is the state.
    A dict the caller supplies is used as it is. *)
Definition __init__ (m : option ListDict) : ListDict :=
  match m with
  | None => {| refs := ∅; lists := [] |}
  | Some m => m
  end.

(** [self._m.setdefault(k, []).append(v)]: the append is in place, on the
    list object [k] refers to; a key that is not there first gets a new,
    empty list object. *)
Definition setdefault_append (k : t.MetricKey) (v : t.Metric) (_m : ListDict)
  : ListDict :=
  match refs _m !! k with
  | Some address =>
      {| refs := refs _m; lists := alter (λ l, l ++ [v]) address (lists _m) |}
  | None =>
      {| refs := <[k := length (lists _m)]> (refs _m);
         lists := lists _m ++ [[] ++ [v]] |}
  end.

Definition report_all (step : Z) (m : list (string * t.Metric)) (_m : ListDict)
  : ListDict :=
  foldl (λ acc kv, setdefault_append kv.1 kv.2 acc) _m m.

(** [self._m.clear()]: the dict loses its keys; the list objects are not
    touched. *)
Definition clear (_m : ListDict) : ListDict :=
  {| refs := ∅; lists := lists _m |}.

(** [reader()] hands out a reader over the same dict. *)
Definition reader_read := MemoryReader.read.

End MemoryReporter.

(** ** [uv/fs/reader.py] *)

Module FSReader.
Section codecs.
(** [uv.fs.util.jsonl_path], [bytes.decode("utf-8")] and [json.loads] are
    used through their interface only; a codec that answers [None] raises its
    own error. *)
Variable jsonl_path : t.MetricKey → string.
Variable decode : list byte → option string.
Variable json_loads : string → option t.Metric.

(** [json.loads(s.decode("utf-8"))] *)
Definition loads_line (s : list byte) : result t.Metric :=
  match decode s with
  | None => Raise UnicodeDecodeError
  | Some str =>
      match json_loads str with
      | None => Raise JSONDecodeError
      | Some v => Return v
      end
  end.

(** [self._fs.open(path, mode='rb')] followed by [handle.read()] *)
Definition open_read (_fs : gmap string (list byte)) (path : string)
  : result (list byte) :=
  match _fs !! path with
  | Some content => Return content
  | None => Raise (ResourceNotFound path)
  end.

Definition read (_fs : gmap string (list byte)) (k : t.MetricKey)
  : result (list t.Metric) :=
  let try :=
    let abs_path := jsonl_path k in
    content ← open_read _fs abs_path;
    let lines := splitlines content in
    comprehension loads_line lines in
  match try with
  | Raise (ResourceNotFound _) => Return []
  | r => r
  end.

End codecs.
End FSReader.

(** ** [uv/sql/reporter.py] *)

(** *** The two mapped classes and the store behind an engine *)

Module Experiment.
Record row : Type := Build {
  id : Z;
  params : t.Metric
}.
End Experiment.

Module Metric.
(** [id] is [None] until the row has been committed; a [value] of [None]
    is NULL. *)
Record row : Type := Build {
  id : option Z;
  experiment_id : Z;
  run_id : Z;
  step : Z;
  tag : string;
  value : option spec_float
}.

Definition with_id (i : Z) (r : row) : row :=
  {| id := Some i; experiment_id := experiment_id r; run_id := run_id r;
     step := step r; tag := tag r; value := value r |}.
End Metric.

Record Engine : Type := { url : string }.

(** The sqlite store an engine is bound to: whether its file exists, whether
    the tables have been created in it, and the rows of the tables
    [experiment] and [metrics] in insertion order. *)
Record Database : Type := {
  sqlite_file : bool;
  tables : bool;
  experiment : list Experiment.row;
  metrics : list Metric.row
}.

(** Modelled from the spec: [uv.sql.util.sqlite_file_exists] is not part of
    the sources; it tells whether the store file behind the engine exists. *)
Definition sqlite_file_exists (engine : Engine) (db : Database) : bool :=
  sqlite_file db.

(** [Base.metadata.create_all(engine)]: connecting creates the file when it
    is missing, then the tables are created; rows that are there stay. *)
Definition create_tables (engine : Engine) (db : Database) : Database :=
  {| sqlite_file := true; tables := true;
     experiment := experiment db; metrics := metrics db |}.

(** *** Sessions and queries *)

(** What sqlite takes for an INTEGER column: a Python int outside 64 bits
    makes the driver raise [OverflowError]. *)
Definition int64 (n : Z) : Prop := (- 2 ^ 63 ≤ n < 2 ^ 63)%Z.

#[global] Instance int64_dec n : Decision (int64 n).
Proof. unfold int64. apply _. Defined.

Definition bindable (r : Metric.row) : Prop :=
  int64 (Metric.experiment_id r) ∧ int64 (Metric.run_id r) ∧ int64 (Metric.step r).

#[global] Instance bindable_dec r : Decision (bindable r).
Proof. unfold bindable. apply _. Defined.

(** What a REAL column keeps of a Python float: NaN is stored as NULL and
    the sign of a zero is dropped; every other float is kept as it is. *)
Definition bind_real (v : option spec_float) : option spec_float :=
  match v with
  | Some S754_nan => None
  | Some (S754_zero _) => Some (S754_zero false)
  | _ => v
  end.

Definition stored (r : Metric.row) : Metric.row :=
  {| Metric.id := Metric.id r;
     Metric.experiment_id := Metric.experiment_id r;
     Metric.run_id := Metric.run_id r;
     Metric.step := Metric.step r;
     Metric.tag := Metric.tag r;
     Metric.value := bind_real (Metric.value r) |}.

(** The primary key a new row of [metrics] receives. *)
Definition next_id (table : list Metric.row) : Z :=
  1 + foldr (λ r acc, Z.max (default 0 (Metric.id r)) acc) 0 table.

(** Connecting to the store creates its file when it is missing; the new
    file holds no table. *)
Definition connect (db : Database) : Database :=
  if sqlite_file db then db
  else {| sqlite_file := true; tables := false;
          experiment := experiment db; metrics := metrics db |}.

(** [session.add_all(rows); session.commit()]: the outcome of the call and
    the store it leaves.  Without rows nothing is flushed and no connection
    is made.  Otherwise the session connects; the insert raises when the
    table is not there, or when an integer does not fit; the rows are stored
    all together or not at all. *)
Definition add_all_commit (rows : list Metric.row) (db : Database)
  : result unit * Database :=
  match rows with
  | [] => (Return tt, db)
  | _ :: _ =>
      let db := connect db in
      if negb (tables db) then
        (Raise (OperationalError "no such table: metrics"), db)
      else if decide (Forall bindable rows) then
        (Return tt,
         {| sqlite_file := sqlite_file db; tables := tables db;
            experiment := experiment db;
            metrics :=
              foldl (λ table r, table ++ [Metric.with_id (next_id table) (stored r)])
                    (metrics db) rows |})
      else (Raise OverflowError, db)
  end.

(** [ORDER BY]: the rows are sorted by [R]; rows that [R] does not tell apart
    stay in the order of the table. *)
Section order_by.
Context {A : Type} (R : relation A) `{!RelDecision R}.

Fixpoint insert_sorted (x : A) (l : list A) : list A :=
  match l with
  | [] => [x]
  | y :: l' => if decide (R x y) then x :: y :: l' else y :: insert_sorted x l'
  end.

Definition order_by (l : list A) : list A := foldr insert_sorted [] l.

End order_by.

(** [order_by(Metric.step)] *)
Definition by_step (r1 r2 : Metric.row) : Prop :=
  (Metric.step r1 ≤ Metric.step r2)%Z.

(** [order_by(Metric.tag, Metric.step)] *)
Definition by_tag_step (r1 r2 : Metric.row) : Prop :=
  (Metric.tag r1 ≠ Metric.tag r2 ∧ String.le (Metric.tag r1) (Metric.tag r2))
  ∨ (Metric.tag r1 = Metric.tag r2 ∧ (Metric.step r1 ≤ Metric.step r2)%Z).

#[global] Instance by_step_dec : RelDecision by_step.
Proof. intros r1 r2. unfold by_step. apply _. Defined.

#[global] Instance by_tag_step_dec : RelDecision by_tag_step.
Proof. intros r1 r2. unfold by_tag_step. apply _. Defined.

(** [filter_by(experiment_id=..., run_id=...)] *)
Definition in_scope (experiment_id run_id : Z) (r : Metric.row) : Prop :=
  Metric.experiment_id r = experiment_id ∧ Metric.run_id r = run_id.

#[global] Instance in_scope_dec e n r : Decision (in_scope e n r).
Proof. unfold in_scope. apply _. Defined.

(** The record shape every reader returns: [{"step": step, "value": v}]; a
    NULL value is read as [None]. *)
Definition step_value (step : Z) (v : option spec_float) : t.Metric :=
  t.PyDict [("step", t.PyInt step);
            ("value", match v with
                      | Some x => t.PyFloat x
                      | None => t.PyNone
                      end)].

Module SQLReader.

Record self : Type := Build {
  _engine : Engine;
  _experiment : Experiment.row;
  _run_id : Z
}.

Definition __init__ (engine : Engine) (experiment : Experiment.row)
    (run_id : Z) (step_key : option string) (db : Database) : result self :=
  if negb (sqlite_file_exists engine db) then
    Raise (Exception
      (url engine +:+
       " doesn't exist! Create the database before creating a reader."))
  else
    let step_key :=
      match step_key with
      | None => "step"
      | Some step_key => step_key
      end in
    Return {| _engine := engine; _experiment := experiment; _run_id := run_id |}.

(** The queries read the rows of [metrics] in the reader's scope.  They are
    the queries of a store whose tables exist: a file without tables holds
    no row, and that the driver refuses a query on it is not modelled. *)
Definition keys (r : self) (db : Database) : list t.MetricKey :=
  let filtered :=
    filter (in_scope (Experiment.id (_experiment r)) (_run_id r)) (metrics db) in
  remove_dups (Metric.tag <$> filtered).

Definition read (r : self) (k : t.MetricKey) (db : Database) : list t.Metric :=
  let filtered :=
    filter (λ row, in_scope (Experiment.id (_experiment r)) (_run_id r) row
                   ∧ Metric.tag row = k) (metrics db) in
  let tags :=
    (λ row, (Metric.step row, Metric.value row)) <$> order_by by_step filtered in
  (λ sv, step_value sv.1 sv.2) <$> tags.

(** Turns the group into the familiar reader interface return value. *)
Definition _values (group : list (string * Z * option spec_float))
  : list t.Metric :=
  (λ ksv, step_value ksv.1.2 ksv.2) <$> group.

(** The query of [read_all]: what iterating over [filtered] yields. *)
Definition read_all_filtered (r : self) (ks : list t.MetricKey) (db : Database)
  : list (string * Z * option spec_float) :=
  let filtered :=
    order_by by_tag_step
      (filter (λ row, Metric.tag row ∈ ks)
         (filter (in_scope (Experiment.id (_experiment r)) (_run_id r))
            (metrics db))) in
  (λ row, (Metric.tag row, Metric.step row, Metric.value row)) <$> filtered.

Definition read_all (r : self) (ks : list t.MetricKey) (db : Database)
  : gmap string (list t.Metric) :=
  dict_comprehension _values
    (groupby (λ t, t.1.1) (read_all_filtered r ks db)).

End SQLReader.

Module SQLReporter.

Record self : Type := Build {
  _engine : Engine;
  _experiment : Experiment.row;
  _run_id : Z
}.

Definition __init__ (engine : Engine) (experiment : Experiment.row)
    (run_id : Z) (db : Database) : result self :=
  if negb (sqlite_file_exists engine db) then
    Raise (Exception
      (url engine +:+
       " doesn't exist! Create the database before creating a reporter."))
  else
    Return {| _engine := engine; _experiment := experiment; _run_id := run_id |}.

(** Generates an instance of Metric tied to this specific reporter's
    parameters. *)
Definition _metric (r : self) (step : Z) (k : string) (v : spec_float)
  : Metric.row :=
  {| Metric.id := None;
     Metric.experiment_id := Experiment.id (_experiment r);
     Metric.run_id := _run_id r;
     Metric.step := step;
     Metric.tag := k;
     Metric.value := Some v |}.

(** The outcome of the call and the store it leaves. *)
Definition report_all (r : self) (step : Z) (m : list (string * spec_float))
    (db : Database) : result unit * Database :=
  add_all_commit ((λ kv, _metric r step kv.1 kv.2) <$> m) db.

Definition reader (r : self) (db : Database) : result SQLReader.self :=
  SQLReader.__init__ (_engine r) (_experiment r) (_run_id r) None db.

End SQLReporter.

(** *** Notions used to state the properties of the relational backend *)

(** The rows a reader is scoped to, and those of one tag among them. *)
Definition visible (r : SQLReader.self) (db : Database) : list Metric.row :=
  filter (in_scope (Experiment.id (SQLReader._experiment r)) (SQLReader._run_id r))
    (metrics db).

Definition visible_tag (r : SQLReader.self) (k : string) (db : Database)
  : list Metric.row :=
  filter (λ row, Metric.tag row = k) (visible r db).

Definition row_record (row : Metric.row) : t.Metric :=
  step_value (Metric.step row) (Metric.value row).

(** [d[key]] on a dict, [None] when [d] is not a dict or has no such key. *)
Definition item (key : string) (d : t.Metric) : option t.Metric :=
  match d with
  | t.PyDict items =>
      (λ found, found.2.2) <$> list_find (λ kv, kv.1 = key) items
  | _ => None
  end.

Definition step_of (record : t.Metric) : option Z :=
  match item "step" record with
  | Some (t.PyInt step) => Some step
  | _ => None
  end.

(** Two records in step order, and a series in ascending step order. *)
Definition step_le (a b : t.Metric) : Prop :=
  match step_of a, step_of b with
  | Some x, Some y => (x ≤ y)%Z
  | _, _ => False
  end.

Definition step_ascending (series : list t.Metric) : Prop :=
  StronglySorted step_le series.

(** A history of [report_all] calls, by any number of reporters: the store
    it leaves.  A call that raises does not end the history. *)
Definition run_reports
    (calls : list (SQLReporter.self * Z * list (string * spec_float)))
    (db : Database) : Database :=
  foldl (λ db call, (SQLReporter.report_all call.1.1 call.1.2 call.2 db).2)
        db calls.

(** The [(experiment id, run id)] pair a reporter stamps and a reader
    filters on. *)
Definition reporter_scope (r : SQLReporter.self) : Z * Z :=
  (Experiment.id (SQLReporter._experiment r), SQLReporter._run_id r).

Definition reader_scope (r : SQLReader.self) : Z * Z :=
  (Experiment.id (SQLReader._experiment r), SQLReader._run_id r).

(** A committed row is the row that was added, as the store keeps it, with
    a primary key. *)
Definition committed (new old : Metric.row) : Prop :=
  ∃ i, new = Metric.with_id i (stored old).

(** ** A concrete run

    One experiment, one reporter with run id 1, two batches; a second
    reporter writes under run id 2. *)

Module scenario.

(** The floats 0.9, 0.5, 0.1 and 0.4 (binary64: mantissa and exponent). *)
Definition f0_9 : spec_float := S754_finite false 8106479329266893 (-53).
Definition f0_5 : spec_float := S754_finite false 4503599627370496 (-53).
Definition f0_1 : spec_float := S754_finite false 7205759403792794 (-56).
Definition f0_4 : spec_float := S754_finite false 7205759403792794 (-54).

Definition engine : Engine := {| url := "sqlite:///metrics.db" |}.

Definition no_file : Database :=
  {| sqlite_file := false; tables := false; experiment := []; metrics := [] |}.

Definition fresh : Database := create_tables engine no_file.

(** The experiment with id 1, and the store once it holds it. *)
Definition exp : Experiment.row :=
  {| Experiment.id := 1;
     Experiment.params := t.PyDict [("lr", t.PyFloat f0_1)] |}.

Definition db0 : Database :=
  {| sqlite_file := sqlite_file fresh; tables := tables fresh;
     experiment := [exp]; metrics := metrics fresh |}.

Definition reporter : SQLReporter.self :=
  {| SQLReporter._engine := engine;
     SQLReporter._experiment := exp;
     SQLReporter._run_id := 1 |}.

Definition reader : SQLReader.self :=
  {| SQLReader._engine := engine;
     SQLReader._experiment := exp;
     SQLReader._run_id := 1 |}.

Definition other_run : SQLReader.self :=
  {| SQLReader._engine := engine;
     SQLReader._experiment := exp;
     SQLReader._run_id := 2 |}.

Definition db1 : Database :=
  (SQLReporter.report_all reporter 0 [("loss", f0_9); ("acc", f0_1)] db0).2.

Definition db2 : Database :=
  (SQLReporter.report_all reporter 1 [("loss", f0_5); ("acc", f0_4)] db1).2.

(** Step 5 is reported before step 2. *)
Definition out_of_order : Database :=
  (SQLReporter.report_all reporter 2 [("loss", f0_5)]
     (SQLReporter.report_all reporter 5 [("loss", f0_9)] db0).2).2.

(** [dict.fromkeys(["a", "b"], [])]: two keys, one list object. *)
Definition shared : ListDict :=
  {| refs := {[ "a" := 0%nat; "b" := 0%nat ]}; lists := [[]] |}.

(** A file store with an empty series file and one with two lines. *)
Definition jsonl_path (k : string) : string := k +:+ ".jsonl".

Definition files : gmap string (list byte) :=
  {[ "empty.jsonl" := [];
     "loss.jsonl" := [x31; x0a; x32; x0a] ]}.

(** Codecs that are enough for the two lines above: ASCII digits. *)
Definition decode (bs : list byte) : option string :=
  Some (String.string_of_list_byte bs).

Definition json_loads (str : string) : option t.Metric :=
  match str with
  | "1" => Some (t.PyInt 1)
  | "2" => Some (t.PyInt 2)
  | _ => None
  end.

(** A [report_all] function that appends the batch to a log. *)
Definition log_all (step : Z) (m : list (string * t.Metric))
    (log : list (Z * list (string * t.Metric)))
  : result (list (Z * list (string * t.Metric))) :=
  Return (log ++ [(step, m)]).

End scenario.

(** ** Further notions *)

(** A row as it is before it is committed: without its primary key. *)
Definition forget_id (r : Metric.row) : Metric.row :=
  {| Metric.id := None;
     Metric.experiment_id := Metric.experiment_id r;
     Metric.run_id := Metric.run_id r;
     Metric.step := Metric.step r;
     Metric.tag := Metric.tag r;
     Metric.value := Metric.value r |}.

(** The rows one [report_all] call hands to the session. *)
Definition call_rows (call : SQLReporter.self * Z * list (string * spec_float))
  : list Metric.row :=
  (λ kv, SQLReporter._metric call.1.1 call.1.2 kv.1 kv.2) <$> call.2.

(** The values a batch holds for one key, in the order of the batch. *)
Definition batch_values {V : Type} (k : string) (m : list (string * V)) : list V :=
  snd <$> filter (λ kv, kv.1 = k) m.

(** The rows of a call as the store keeps them, when it takes the call:
    the rows of a batch are stored together or not at all. *)
Definition accepted_rows (call : SQLReporter.self * Z * list (string * spec_float))
  : list Metric.row :=
  if decide (Forall bindable (call_rows call)) then stored <$> call_rows call
  else [].

(** A Python process that uses the relational backend: the store, and the
    reporters and readers it has constructed so far.  A step is one call of
    the backend: a constructor, [report_all] or [reader()] on a reporter
    that was constructed, or a query on a reader that was constructed (a
    query connects to the store).  Setting the store up with [create_tables]
    is left to the user of the backend; it is not one of these steps. *)
Record process : Type := {
  store : Database;
  reporters : list SQLReporter.self;
  readers : list SQLReader.self
}.

Inductive backend_step : process → process → Prop :=
| construct_reporter p engine experiment run_id :
    backend_step p
      match SQLReporter.__init__ engine experiment run_id (store p) with
      | Return r =>
          {| store := store p; reporters := r :: reporters p; readers := readers p |}
      | Raise _ => p
      end
| construct_reader p engine experiment run_id step_key :
    backend_step p
      match SQLReader.__init__ engine experiment run_id step_key (store p) with
      | Return r =>
          {| store := store p; reporters := reporters p; readers := r :: readers p |}
      | Raise _ => p
      end
| call_report_all p r step m :
    r ∈ reporters p →
    backend_step p
      {| store := (SQLReporter.report_all r step m (store p)).2;
         reporters := reporters p; readers := readers p |}
| call_reader p r :
    r ∈ reporters p →
    backend_step p
      match SQLReporter.reader r (store p) with
      | Return rd =>
          {| store := store p; reporters := reporters p; readers := rd :: readers p |}
      | Raise _ => p
      end
| call_query p r :
    r ∈ readers p →
    backend_step p
      {| store := connect (store p);
         reporters := reporters p; readers := readers p |}.

(** What a memory store holds under a key: the list object the key refers
    to, if the key is there. *)
Definition series (_m : ListDict) (k : t.MetricKey) : option (list t.Metric) :=
  address ← refs _m !! k; lists _m !! address.

(** Every key refers to a list object that is there. *)
Definition well_formed (_m : ListDict) : Prop :=
  ∀ k address, refs _m !! k = Some address → (address < length (lists _m))%nat.

(** No two keys refer to the same list object. *)
Definition unshared (_m : ListDict) : Prop :=
  ∀ k1 k2 address,
    refs _m !! k1 = Some address → refs _m !! k2 = Some address → k1 = k2.

(** A history of single-entry reports for one key to a memory reporter. *)
Definition memory_reports (k : t.MetricKey) (calls : list (Z * t.Metric))
    (_m : ListDict) : ListDict :=
  foldl (λ acc call, MemoryReporter.report_all call.1 [(k, call.2)] acc) _m calls.

(** Lines joined with a terminator after each one. *)
Definition join_lines (terminator : list byte) (lines : list (list byte))
  : list byte :=
  mjoin ((λ l, l ++ terminator) <$> lines).

(** A [report] function that logs the entry, and refuses the key "bad". *)
Definition log_one (step : Z) (k : t.MetricKey) (v : t.Metric)
    (log : list (Z * string * t.Metric)) : result (list (Z * string * t.Metric)) :=
  if decide (k = "bad") then Raise (ValueError "bad key")
  else Return (log ++ [(step, k, v)]).

(** * Properties *)

(** ** [ORDER BY] *)

Section order_by_facts.
Context {A : Type} (R : relation A) `{!RelDecision R}.

Lemma insert_sorted_Permutation x l : insert_sorted R x l ≡ₚ x :: l.
Proof.
  induction l as [|y l IH]; simpl; [done|].
  case_decide; [done|].
  rewrite IH. apply Permutation_swap.
Qed.

Lemma order_by_Permutation l : order_by R l ≡ₚ l.
Proof.
  induction l as [|x l IH]; simpl; [done|].
  by rewrite insert_sorted_Permutation, IH.
Qed.

Lemma order_by_elem_of x l : x ∈ order_by R l ↔ x ∈ l.
Proof. by rewrite order_by_Permutation. Qed.

Lemma order_by_nil_inv l : order_by R l = [] → l = [].
Proof.
  intros H. apply Permutation_nil_r. by rewrite <-H, order_by_Permutation.
Qed.

Context `{!Total R, !Transitive R}.

Lemma insert_sorted_StronglySorted x l :
  StronglySorted R l → StronglySorted R (insert_sorted R x l).
Proof.
  induction 1 as [|y l Hl IH Hy]; simpl.
  - repeat constructor.
  - case_decide as Hxy.
    + constructor; [by constructor|].
      constructor; [done|].
      eapply Forall_impl; [exact Hy|]. intros z Hz. by trans y.
    + constructor; [done|].
      rewrite insert_sorted_Permutation. constructor; [|done].
      by destruct (total R x y).
Qed.

Lemma order_by_StronglySorted l : StronglySorted R (order_by R l).
Proof.
  induction l; simpl; [constructor|by apply insert_sorted_StronglySorted].
Qed.

End order_by_facts.

(** Selecting after a two-column sort is sorting the selection by the second
    column, when the selection fixes the first: [P] selects, [R1] is the
    order of the sort and [R2] the order it induces on the selected rows. *)
Section order_by_filter.
Context {A : Type} (R1 R2 : relation A) (P : A → Prop).
Context `{!RelDecision R1, !RelDecision R2, !∀ x, Decision (P x)}.
Context `{!Total R1, !Transitive R1}.
Hypothesis R12 : ∀ x y, P x → P y → R1 x y ↔ R2 x y.

Lemma insert_sorted_head x l :
  Forall (R2 x) l → insert_sorted R2 x l = x :: l.
Proof. destruct 1; simpl; [done|]. by rewrite decide_True. Qed.

Lemma filter_insert_sorted x l :
  StronglySorted R1 l →
  filter P (insert_sorted R1 x l) =
    if decide (P x) then insert_sorted R2 x (filter P l) else filter P l.
Proof.
  induction 1 as [|y l Hl IH Hy]; simpl.
  - rewrite filter_cons, filter_nil. by case_decide.
  - destruct (decide (R1 x y)) as [Hxy|Hxy].
    + rewrite (filter_cons _ x). destruct (decide (P x)) as [Hx|Hx]; [|done].
      rewrite insert_sorted_head; [done|].
      apply Forall_forall. intros z [Hz Hin]%list_elem_of_filter.
      apply R12; [done..|].
      apply elem_of_cons in Hin as [->|Hin]; [done|].
      trans y; [done|]. by eapply Forall_forall in Hy.
    + rewrite !(filter_cons _ y), IH.
      destruct (decide (P x)) as [Hx|Hx], (decide (P y)) as [Hy'|Hy']; simpl;
        try done.
      rewrite decide_False; [done|]. by rewrite <-R12.
Qed.

Lemma filter_order_by l :
  filter P (order_by R1 l) = order_by R2 (filter P l).
Proof.
  induction l as [|x l IH]; simpl; [done|].
  rewrite filter_insert_sorted by (by apply order_by_StronglySorted).
  rewrite filter_cons, IH. by case_decide.
Qed.

End order_by_filter.

(** ** [groupby] and the dict built from its groups *)

Section groupby_facts.
Context {A K : Type} `{EqDecision K} (key : A → K).

Lemma groupby_cons x l :
  ∃ g groups, groupby key (x :: l) = (key x, x :: g) :: groups.
Proof.
  simpl. destruct (groupby key l) as [|[k g] groups]; [by eauto|].
  case_decide; subst; eauto.
Qed.

Lemma groupby_nil_inv l : groupby key l = [] → l = [].
Proof.
  destruct l as [|x l]; [done|].
  destruct (groupby_cons x l) as (g & groups & ->). discriminate.
Qed.

(** The groups, in order, make up the input: nothing is lost or repeated. *)
Lemma groupby_concat l : mjoin (groupby key l).*2 = l.
Proof.
  induction l as [|x l IH]; simpl; [done|].
  destruct (groupby key l) as [|[k g] groups]; simpl in *.
  - by rewrite <-IH.
  - case_decide; simpl; by rewrite <-IH.
Qed.

(** A group is not empty and all its members carry the key of the group. *)
Lemma groupby_groups l :
  Forall (λ kg, kg.2 ≠ [] ∧ Forall (λ x, key x = kg.1) kg.2) (groupby key l).
Proof.
  induction l as [|x l IH]; simpl; [constructor|].
  destruct (groupby key l) as [|[k g] groups]; simpl in *.
  - repeat constructor; done.
  - apply Forall_cons in IH as [[? ?] ?].
    case_decide; subst; repeat constructor; simpl; auto.
Qed.

Lemma groupby_keys x l : x ∈ l → key x ∈ (groupby key l).*1.
Proof.
  intros Hx. rewrite <-(groupby_concat l) in Hx.
  apply list_elem_of_join in Hx as (g & Hxg & Hg).
  apply list_elem_of_fmap in Hg as ([k g'] & -> & Hkg).
  pose proof (groupby_groups l) as HF.
  eapply Forall_forall in HF as [_ HF]; [|exact Hkg].
  eapply Forall_forall in HF; [|exact Hxg]. simpl in *. subst k.
  apply list_elem_of_fmap. by exists (key x, g').
Qed.

Lemma groupby_key_inv l k g :
  (k, g) ∈ groupby key l → ∃ z, z ∈ l ∧ key z = k.
Proof.
  intros Hkg. pose proof (groupby_groups l) as HF.
  eapply Forall_forall in HF as [Hne HF]; [|exact Hkg]. simpl in *.
  destruct g as [|z g]; [done|]. exists z. split.
  - rewrite <-(groupby_concat l). apply list_elem_of_join.
    exists (z :: g). split; [left|].
    apply list_elem_of_fmap. by exists (k, z :: g).
  - by apply Forall_cons in HF as [? _].
Qed.

(** When the input is sorted by key, a run of equal keys is all the elements
    with that key: every key heads one group only, and the group of [k] is
    the input filtered on [k]. *)
Context (R : relation K) `{!PartialOrder R}.

Lemma groupby_sorted l :
  StronglySorted (λ a b, R (key a) (key b)) l →
  NoDup (groupby key l).*1 ∧
  ∀ k g, (k, g) ∈ groupby key l → g = filter (λ x, key x = k) l.
Proof.
  induction 1 as [|x l Hl [IHn IHg] Hx].
  { split; [constructor|]. by intros ?? ?%elem_of_nil. }
  destruct l as [|y l].
  { split; [repeat constructor; by intros ?%elem_of_nil|].
    intros k g [= -> ->]%list_elem_of_singleton. by rewrite filter_cons_True. }
  assert (key x ≠ key y → ∀ z, z ∈ y :: l → key z ≠ key x) as Hfresh.
  { intros Hxy z Hz Hzx. apply Hxy, (anti_symm R).
    - eapply Forall_forall in Hx; [exact Hx|left].
    - rewrite <-Hzx. apply StronglySorted_inv in Hl as [_ Hy].
      apply elem_of_cons in Hz as [->|Hz]; [done|].
      by eapply Forall_forall in Hy. }
  change (groupby key (x :: y :: l)) with
    (match groupby key (y :: l) with
     | (k, g) :: groups =>
         if decide (key x = k) then (k, x :: g) :: groups
         else (key x, [x]) :: (k, g) :: groups
     | [] => [(key x, [x])]
     end).
  destruct (groupby_cons y l) as (g0 & groups & Hgb).
  rewrite Hgb in *. simpl in IHn. apply NoDup_cons in IHn as [Hy0 IHn].
  destruct (decide (key x = key y)) as [Hxy|Hxy].
  - split; [simpl; by apply NoDup_cons|].
    intros k g [[= -> ->]|Hkg]%elem_of_cons.
    + rewrite filter_cons_True by done. f_equal. apply IHg. left.
    + rewrite filter_cons_False; [apply IHg; by right|].
      intros Hk. apply Hy0. rewrite <-Hxy, Hk.
      apply list_elem_of_fmap. by exists (k, g).
  - specialize (Hfresh Hxy). split.
    + rewrite fmap_cons. apply NoDup_cons.
      split; [|rewrite fmap_cons; by apply NoDup_cons].
      intros ([k g] & Hk & Hkg)%list_elem_of_fmap. simpl in Hk. subst k.
      rewrite <-Hgb in Hkg.
      apply groupby_key_inv in Hkg as (z & Hz & Hzx). by eapply Hfresh.
    + intros k g [[= -> ->]|Hkg]%elem_of_cons.
      * rewrite filter_cons_True by done. f_equal. symmetry.
        apply Permutation_nil_r, Permutation_nil_r.
        destruct (filter _ (y :: l)) as [|z l'] eqn:Hf; [done|].
        assert (z ∈ filter (λ a, key a = key x) (y :: l)) as Hz
          by (rewrite Hf; left).
        apply list_elem_of_filter in Hz as [Hzx Hz]. by destruct (Hfresh z).
      * rewrite filter_cons_False; [by apply IHg|].
        intros Hk. rewrite <-Hgb in Hkg.
        apply groupby_key_inv in Hkg as (z & Hz & Hzx).
        destruct (Hfresh z Hz). congruence.
Qed.

End groupby_facts.

Section dict_facts.
Context {A B : Type} (f : A → B).

Lemma dict_comprehension_snoc items k g :
  dict_comprehension f (items ++ [(k, g)]) = <[k := f g]> (dict_comprehension f items).
Proof. unfold dict_comprehension. by rewrite foldl_snoc. Qed.

Lemma dict_comprehension_lookup_None items k :
  k ∉ items.*1 → dict_comprehension f items !! k = None.
Proof.
  induction items as [|[k' g'] items IH] using rev_ind; [done|].
  rewrite fmap_app, not_elem_of_app. simpl. rewrite list_elem_of_singleton.
  intros [? ?]. rewrite dict_comprehension_snoc, lookup_insert_ne by done. auto.
Qed.

Lemma dict_comprehension_lookup_Some items k g :
  NoDup items.*1 → (k, g) ∈ items → dict_comprehension f items !! k = Some (f g).
Proof.
  induction items as [|[k' g'] items IH] using rev_ind; [by intros _ ?%elem_of_nil|].
  rewrite fmap_app. intros (Hnd & Hk' & _)%NoDup_app.
  rewrite dict_comprehension_snoc.
  intros [Hin|[= -> ->]%list_elem_of_singleton]%elem_of_app.
  - rewrite lookup_insert_ne; [by apply IH|].
    intros ->. apply (Hk' k); [|left].
    apply list_elem_of_fmap. by exists (k, g).
  - apply lookup_insert_eq.
Qed.

End dict_facts.

(** The dict built from the groups of a key-sorted list maps a key to the
    elements that carry it, and has no entry for a key nobody carries. *)
Lemma dict_groupby_lookup {A B} (key : A → string) (f : list A → B) l k :
  StronglySorted (λ a b, String.le (key a) (key b)) l →
  dict_comprehension f (groupby key l) !! k =
    match filter (λ x, key x = k) l with
    | [] => None
    | g => Some (f g)
    end.
Proof.
  intros [Hnd Hg]%(groupby_sorted key String.le).
  destruct (filter _ l) as [|z g] eqn:Hf.
  - apply dict_comprehension_lookup_None.
    intros ([k' g'] & -> & Hkg)%list_elem_of_fmap. simpl in *.
    pose proof (groupby_groups key l) as HF.
    eapply Forall_forall in HF as [Hne _]; [|exact Hkg].
    apply Hne. simpl. by rewrite (Hg _ _ Hkg).
  - assert (z ∈ filter (λ x, key x = k) l) as [Hz Hin]%list_elem_of_filter
      by (rewrite Hf; left).
    apply (groupby_keys key) in Hin.
    apply list_elem_of_fmap in Hin as ([k' g'] & Hk & Hkg). simpl in Hk.
    rewrite Hz in Hk. subst k'.
    rewrite <-Hf, <-(Hg _ _ Hkg). by apply dict_comprehension_lookup_Some.
Qed.

Lemma filter_fmap {A B} (f : A → B) (P : B → Prop) `{!∀ y, Decision (P y)}
    (l : list A) :
  filter P (f <$> l) = f <$> filter (λ x, P (f x)) l.
Proof.
  induction l as [|x l IH]; [done|].
  rewrite fmap_cons, !filter_cons, IH. by case_decide.
Qed.

(** ** The two sort orders of the relational reader *)

#[global] Instance by_step_total : Total by_step.
Proof. intros r1 r2. unfold by_step. lia. Qed.

#[global] Instance by_step_trans : Transitive by_step.
Proof. intros r1 r2 r3. unfold by_step. lia. Qed.

#[global] Instance by_tag_step_total : Total by_tag_step.
Proof.
  intros r1 r2. unfold by_tag_step.
  destruct (decide (Metric.tag r1 = Metric.tag r2)) as [Heq|Hne].
  - destruct (Z.le_ge_cases (Metric.step r1) (Metric.step r2)); [by auto|].
    right. right. split; [done|lia].
  - destruct (total String.le (Metric.tag r1) (Metric.tag r2)); [by auto|].
    right. left. split; [congruence|done].
Qed.

#[global] Instance by_tag_step_trans : Transitive by_tag_step.
Proof.
  intros r1 r2 r3. unfold by_tag_step.
  intros [[Hne12 H12]|[He12 H12]] [[Hne23 H23]|[He23 H23]].
  - left. split; [|by trans (Metric.tag r2)].
    intros He. rewrite <-He in H23. by apply Hne12, (anti_symm String.le).
  - left. rewrite <-He23. done.
  - left. rewrite He12. done.
  - right. split; [congruence|lia].
Qed.

Lemma by_tag_step_tag r1 r2 :
  by_tag_step r1 r2 → String.le (Metric.tag r1) (Metric.tag r2).
Proof. intros [[_ ?]|[-> _]]; done. Qed.

Lemma by_tag_step_same_tag k r1 r2 :
  Metric.tag r1 = k → Metric.tag r2 = k → by_tag_step r1 r2 ↔ by_step r1 r2.
Proof.
  intros <- Heq. unfold by_tag_step, by_step. split.
  - intros [[? _]|[_ ?]]; [congruence|done].
  - by right.
Qed.

(** ** The relational reader *)

Section sql_reader_facts.
Implicit Types (r : SQLReader.self) (db : Database) (k : string).

Lemma read_rows r k db :
  SQLReader.read r k db = row_record <$> order_by by_step (visible_tag r k db).
Proof.
  unfold SQLReader.read, visible_tag, visible.
  rewrite <-list_fmap_compose, list_filter_filter.
  do 2 f_equal. apply list_filter_iff. tauto.
Qed.

Lemma read_all_filtered_rows r ks db :
  SQLReader.read_all_filtered r ks db =
    (λ row, (Metric.tag row, Metric.step row, Metric.value row)) <$>
      order_by by_tag_step (filter (λ row, Metric.tag row ∈ ks) (visible r db)).
Proof. reflexivity. Qed.

Lemma read_all_filtered_sorted r ks db :
  StronglySorted (λ a b, String.le a.1.1 b.1.1)
    (SQLReader.read_all_filtered r ks db).
Proof.
  rewrite read_all_filtered_rows.
  eapply StronglySorted_fmap; [|apply (order_by_StronglySorted by_tag_step)].
  intros r1 r2. apply by_tag_step_tag.
Qed.

Lemma read_all_filtered_tag r ks k db :
  filter (λ t, t.1.1 = k) (SQLReader.read_all_filtered r ks db) =
    if decide (k ∈ ks) then
      (λ row, (Metric.tag row, Metric.step row, Metric.value row)) <$>
        order_by by_step (visible_tag r k db)
    else [].
Proof.
  rewrite read_all_filtered_rows, filter_fmap. simpl.
  rewrite (filter_order_by by_tag_step by_step (λ row, Metric.tag row = k))
    by (intros; by apply (by_tag_step_same_tag k)).
  rewrite list_filter_filter. unfold visible_tag.
  case_decide as Hk.
  - do 2 f_equal. apply list_filter_iff. intros row. split; [tauto|].
    intros Hrow. split; [done|]. by rewrite Hrow.
  - replace (filter _ (visible r db)) with (@nil Metric.row); [done|].
    symmetry. apply Permutation_nil_r, Permutation_nil_r.
    destruct (filter _ (visible r db)) as [|z l] eqn:Hf; [done|].
    assert (z ∈ z :: l) as Hz by left. rewrite <-Hf in Hz.
    apply list_elem_of_filter in Hz as [[<- ?] _]. done.
Qed.

(** What [read_all] maps a key to, in terms of [read]. *)
Lemma read_all_lookup r ks k db :
  SQLReader.read_all r ks db !! k =
    if decide (k ∈ ks) then
      match SQLReader.read r k db with
      | [] => None
      | series => Some series
      end
    else None.
Proof.
  unfold SQLReader.read_all.
  rewrite dict_groupby_lookup by apply read_all_filtered_sorted.
  rewrite read_all_filtered_tag, read_rows.
  case_decide; [|done].
  destruct (order_by by_step (visible_tag r k db)) as [|row rows]; [done|].
  unfold SQLReader._values. rewrite !fmap_cons, <-list_fmap_compose. done.
Qed.

End sql_reader_facts.

(** ** The relational reporter *)

Lemma commit_rows table rows :
  ∃ rows',
    foldl (λ table r, table ++ [Metric.with_id (next_id table) (stored r)]) table rows
      = table ++ rows'
    ∧ Forall2 committed rows' rows.
Proof.
  revert table. induction rows as [|row rows IH]; intros table; simpl.
  - exists []. by rewrite app_nil_r.
  - destruct (IH (table ++ [Metric.with_id (next_id table) (stored row)]))
      as (rows' & -> & Hrows').
    exists (Metric.with_id (next_id table) (stored row) :: rows').
    rewrite <-app_assoc. split; [done|].
    constructor; [by eexists|done].
Qed.

(** A commit returns exactly when there is nothing to store, or the file and
    the tables are there and every integer of every row fits. *)
Lemma add_all_commit_outcome rows db :
  (add_all_commit rows db).1 = Return tt ↔
    rows = [] ∨ (sqlite_file db = true ∧ tables db = true ∧ Forall bindable rows).
Proof.
  unfold add_all_commit, connect. destruct rows as [|row rows].
  { simpl. split; [by left|done]. }
  destruct (sqlite_file db), (tables db); simpl;
    try (split; [done|intros [?|(? & ? & ?)]; done]).
  case_decide; simpl.
  - split; [by right|done].
  - split; [done|]. intros [?|(_ & _ & ?)]; done.
Qed.

Lemma add_all_commit_metrics rows db :
  (add_all_commit rows db).1 = Return tt →
  ∃ rows', metrics (add_all_commit rows db).2 = metrics db ++ rows'
           ∧ Forall2 committed rows' rows.
Proof.
  unfold add_all_commit, connect. destruct rows as [|row rows].
  { intros _. exists []. by rewrite app_nil_r. }
  destruct (sqlite_file db), (tables db); simpl; try done.
  case_decide; simpl; [|done]. intros _. apply (commit_rows _ (row :: rows)).
Qed.

Lemma add_all_commit_raises rows db :
  (add_all_commit rows db).1 ≠ Return tt →
  metrics (add_all_commit rows db).2 = metrics db.
Proof.
  unfold add_all_commit, connect. destruct rows as [|row rows]; [done|].
  destruct (sqlite_file db), (tables db); simpl; try done.
  by case_decide.
Qed.

Lemma add_all_commit_experiment rows db :
  experiment (add_all_commit rows db).2 = experiment db.
Proof.
  unfold add_all_commit, connect. destruct rows as [|row rows]; [done|].
  destruct (sqlite_file db), (tables db); simpl; try done.
  by case_decide.
Qed.

Lemma report_all_metrics rep step m db :
  (SQLReporter.report_all rep step m db).1 = Return tt →
  ∃ rows', metrics (SQLReporter.report_all rep step m db).2 = metrics db ++ rows'
           ∧ Forall2 (λ new kv, committed new (SQLReporter._metric rep step kv.1 kv.2))
               rows' m.
Proof.
  intros Hok.
  destruct (add_all_commit_metrics
              ((λ kv, SQLReporter._metric rep step kv.1 kv.2) <$> m) db Hok)
    as (rows' & Hm & Hrows').
  exists rows'. split; [exact Hm|].
  by apply (Forall2_fmap_r (λ kv, SQLReporter._metric rep step kv.1 kv.2)) in Hrows'.
Qed.

Lemma report_all_raises rep step m db :
  (SQLReporter.report_all rep step m db).1 ≠ Return tt →
  metrics (SQLReporter.report_all rep step m db).2 = metrics db.
Proof. apply add_all_commit_raises. Qed.

(** The rows of one call carry the same ids and the same step, so they fit
    together or not at all. *)
Lemma report_all_bindable rep step m :
  Forall bindable ((λ kv, SQLReporter._metric rep step kv.1 kv.2) <$> m) ↔
    m = [] ∨ (int64 (Experiment.id (SQLReporter._experiment rep))
              ∧ int64 (SQLReporter._run_id rep) ∧ int64 step).
Proof.
  destruct m as [|[k v] m]; [split; [by left|constructor]|].
  split.
  - intros [Hrow _]%Forall_cons. by right.
  - intros [?|Hfit]; [done|]. apply Forall_fmap, Forall_forall. by intros.
Qed.

Lemma report_all_outcome rep step m db :
  (SQLReporter.report_all rep step m db).1 = Return tt ↔
    m = [] ∨ (sqlite_file db = true ∧ tables db = true
              ∧ int64 (Experiment.id (SQLReporter._experiment rep))
              ∧ int64 (SQLReporter._run_id rep) ∧ int64 step).
Proof.
  unfold SQLReporter.report_all.
  rewrite add_all_commit_outcome, report_all_bindable. split.
  - intros [->%fmap_nil_inv|(? & ? & [?|?])]; auto.
  - intros [->|(? & ? & ?)]; auto.
Qed.

(** A row written by a reporter is in the scope of a reader exactly when the
    two have the same scope. *)
Lemma committed_in_scope rep rd step k v new :
  committed new (SQLReporter._metric rep step k v) →
  in_scope (Experiment.id (SQLReader._experiment rd)) (SQLReader._run_id rd) new
  ↔ reader_scope rd = reporter_scope rep.
Proof.
  intros [i ->]. unfold in_scope, reader_scope, reporter_scope. simpl.
  split; [intros [-> ->]; done|intros [= -> ->]; done].
Qed.

Lemma report_all_visible_raises rep rd step m db :
  (SQLReporter.report_all rep step m db).1 ≠ Return tt →
  visible rd (SQLReporter.report_all rep step m db).2 = visible rd db.
Proof. intros Hraise. unfold visible. by rewrite report_all_raises. Qed.

Lemma report_all_visible_other rep rd step m db :
  reader_scope rd ≠ reporter_scope rep →
  visible rd (SQLReporter.report_all rep step m db).2 = visible rd db.
Proof.
  intros Hne.
  destruct (decide ((SQLReporter.report_all rep step m db).1 = Return tt))
    as [Hok|Hraise]; [|by apply report_all_visible_raises].
  unfold visible.
  destruct (report_all_metrics rep step m db Hok) as (rows' & -> & Hrows').
  rewrite filter_app.
  replace (filter _ rows') with (@nil Metric.row); [by rewrite app_nil_r|].
  symmetry. clear -Hne Hrows'.
  induction Hrows' as [|new [k v] rows' m' Hnew _ IH]; [done|].
  rewrite filter_cons_False; [done|].
  by rewrite (committed_in_scope rep rd step k v).
Qed.

Lemma report_all_visible_same rep rd step m db :
  reader_scope rd = reporter_scope rep →
  (SQLReporter.report_all rep step m db).1 = Return tt →
  ∃ rows', visible rd (SQLReporter.report_all rep step m db).2 = visible rd db ++ rows'
           ∧ Forall2 (λ new kv, committed new (SQLReporter._metric rep step kv.1 kv.2))
               rows' m.
Proof.
  intros Heq Hok. unfold visible.
  destruct (report_all_metrics rep step m db Hok) as (rows' & -> & Hrows').
  exists rows'. split; [|done]. rewrite filter_app. f_equal.
  clear -Heq Hrows'.
  induction Hrows' as [|new [k v] rows' m' Hnew _ IH]; [done|].
  rewrite filter_cons_True, IH; [done|].
  by rewrite (committed_in_scope rep rd step k v).
Qed.

(** Every query of a reader is a function of the rows in its scope. *)
Lemma reader_queries_visible rd db1 db2 :
  visible rd db1 = visible rd db2 →
  SQLReader.keys rd db1 = SQLReader.keys rd db2
  ∧ (∀ k, SQLReader.read rd k db1 = SQLReader.read rd k db2)
  ∧ (∀ ks, SQLReader.read_all rd ks db1 = SQLReader.read_all rd ks db2).
Proof.
  intros Hv. split; [|split].
  - unfold SQLReader.keys. fold (visible rd db1). fold (visible rd db2).
    by rewrite Hv.
  - intros k. rewrite !read_rows. unfold visible_tag. by rewrite Hv.
  - intros ks. unfold SQLReader.read_all. rewrite !read_all_filtered_rows.
    by rewrite Hv.
Qed.

(** ** What a reader sees *)

Lemma elem_of_visible rd db row :
  row ∈ visible rd db ↔
    row ∈ metrics db ∧ (Metric.experiment_id row, Metric.run_id row) = reader_scope rd.
Proof.
  unfold visible, in_scope, reader_scope. rewrite list_elem_of_filter.
  split; [intros [[-> ->] ?]; done|intros [? [= -> ->]]; done].
Qed.

Lemma elem_of_keys rd db k :
  k ∈ SQLReader.keys rd db ↔ ∃ row, row ∈ visible rd db ∧ Metric.tag row = k.
Proof.
  unfold SQLReader.keys. fold (visible rd db).
  rewrite elem_of_remove_dups, list_elem_of_fmap.
  split; intros (row & ? & ?); by exists row.
Qed.

Lemma elem_of_read rd db k record :
  record ∈ SQLReader.read rd k db ↔
    ∃ row, row ∈ visible rd db ∧ Metric.tag row = k ∧ record = row_record row.
Proof.
  rewrite read_rows, list_elem_of_fmap. split.
  - intros (row & -> & Hin). apply order_by_elem_of in Hin.
    apply list_elem_of_filter in Hin as [? ?]. by exists row.
  - intros (row & Hrow & Htag & ->). exists row. split; [done|].
    apply order_by_elem_of. by apply list_elem_of_filter.
Qed.


Lemma step_of_row_record row : step_of (row_record row) = Some (Metric.step row).
Proof. reflexivity. Qed.

Lemma row_records_step_ascending rows :
  StronglySorted by_step rows → step_ascending (row_record <$> rows).
Proof.
  apply StronglySorted_fmap. intros r1 r2 Hle.
  unfold step_le. by rewrite !step_of_row_record.
Qed.

Lemma read_step_ascending rd db k : step_ascending (SQLReader.read rd k db).
Proof.
  rewrite read_rows.
  apply row_records_step_ascending, (order_by_StronglySorted by_step).
Qed.

(** ** The claims about the relational reader *)

(** C3: [read_all(ks)] iterates over the rows of the reader's scope whose tag
    is in [ks], sorted by tag and then by step; grouping the consecutive rows
    of that stream by tag puts every tag in one group only, loses no row, and
    makes the group of a tag all the rows of that tag; each group becomes a
    list of [{step, value}] records, and a key is in the result exactly when
    it was requested and has a row: a requested key without rows is absent,
    not mapped to the empty list. *)
Theorem read_all_groups_sorted_stream rd ks db :
  let stream := SQLReader.read_all_filtered rd ks db in
  let groups := groupby (λ t, t.1.1) stream in
  (∃ rows,
      stream = (λ row, (Metric.tag row, Metric.step row, Metric.value row)) <$> rows
      ∧ rows ≡ₚ filter (λ row, Metric.tag row ∈ ks) (visible rd db)
      ∧ StronglySorted by_tag_step rows)
  ∧ (NoDup groups.*1
     ∧ mjoin groups.*2 = stream
     ∧ ∀ k g, (k, g) ∈ groups → g = filter (λ t, t.1.1 = k) stream)
  ∧ (∀ k, SQLReader.read_all rd ks db !! k =
            match filter (λ t, t.1.1 = k) stream with
            | [] => None
            | g => Some ((λ ksv, step_value ksv.1.2 ksv.2) <$> g)
            end)
  ∧ (∀ k, is_Some (SQLReader.read_all rd ks db !! k) ↔
            k ∈ ks ∧ ∃ row, row ∈ visible rd db ∧ Metric.tag row = k)
  ∧ (∀ k, SQLReader.read_all rd ks db !! k ≠ Some []).
Proof.
  intros stream groups.
  pose proof (read_all_filtered_sorted rd ks db) as Hsorted. fold stream in Hsorted.
  split; [|split; [|split; [|split]]].
  - eexists. split; [apply read_all_filtered_rows|].
    split; [apply order_by_Permutation|apply (order_by_StronglySorted by_tag_step)].
  - destruct (groupby_sorted (λ t : string * Z * option spec_float, t.1.1)
                String.le stream Hsorted)
      as [Hnd Hg].
    split; [done|]. split; [apply groupby_concat|done].
  - intros k. unfold SQLReader.read_all. fold stream.
    by rewrite dict_groupby_lookup.
  - intros k. rewrite read_all_lookup. case_decide as Hk.
    + destruct (SQLReader.read rd k db) as [|record series] eqn:Hr.
      * split; [by intros [? ?]|]. intros [_ (row & Hrow & Htag)].
        assert (row_record row ∈ SQLReader.read rd k db) as Hin
          by (apply elem_of_read; by exists row).
        rewrite Hr in Hin. by apply elem_of_nil in Hin.
      * split; [|by eauto]. intros _. split; [done|].
        assert (record ∈ SQLReader.read rd k db) as Hin by (rewrite Hr; left).
        apply elem_of_read in Hin as (row & ? & ? & _). by exists row.
    + split; [by intros [? ?]|by intros [? _]].
  - intros k. rewrite read_all_lookup. case_decide; [|done].
    by destruct (SQLReader.read rd k db).
Qed.

Lemma StronglySorted_lookup_lt {A} (R : relation A) l i j x y :
  StronglySorted R l → l !! i = Some x → l !! j = Some y → (i < j)%nat → R x y.
Proof.
  intros Hl. revert i j. induction Hl as [|z l Hl IH Hz]; intros i j; [done|].
  destruct i as [|i], j as [|j]; simpl; try lia.
  - intros [= ->] Hy _. eapply Forall_forall in Hz; [done|].
    by eapply list_elem_of_lookup_2.
  - intros Hx Hy Hij. apply (IH i j); [done..|lia].
Qed.

(** In a series in ascending step order a record with a smaller step comes
    before one with a larger step. *)
Lemma step_ascending_positions series i j x y a b :
  step_ascending series →
  series !! i = Some x → series !! j = Some y →
  step_of x = Some a → step_of y = Some b → (a < b)%Z → (i < j)%nat.
Proof.
  intros Hasc Hx Hy Ha Hb Hab.
  destruct (decide (i < j)%nat) as [|Hij]; [done|]. exfalso.
  destruct (decide (i = j)) as [->|Hne]; [assert (a = b) by congruence; lia|].
  assert (step_le y x) as Hle
    by (apply (StronglySorted_lookup_lt step_le series j i); [done..|lia]).
  unfold step_le in Hle. rewrite Ha, Hb in Hle. lia.
Qed.

(** C4: the series [read(k)] returns is made of the records of the rows of
    tag [k] in the reader's scope, none lost, and it is in ascending step
    order whatever the rows of the store are and in whatever order they
    were inserted: a record with a smaller step comes before one with a
    larger step.  [read_all(ks)] maps a requested key that has rows to that
    same series.  In particular, after reporting a value for [k] at step
    [s1] and then one at a smaller step [s2], the record of [s2] comes
    before the record of [s1]. *)
Theorem relational_series_step_ascending rd db k rep s1 s2 v1 v2 :
  SQLReader.read rd k db ≡ₚ
    (λ row, step_value (Metric.step row) (Metric.value row)) <$>
      filter (λ row, Metric.tag row = k) (visible rd db)
  ∧ step_ascending (SQLReader.read rd k db)
  ∧ (∀ i j x y a b,
       SQLReader.read rd k db !! i = Some x →
       SQLReader.read rd k db !! j = Some y →
       step_of x = Some a → step_of y = Some b → (a < b)%Z → (i < j)%nat)
  ∧ (∀ ks, k ∈ ks → SQLReader.read rd k db ≠ [] →
       SQLReader.read_all rd ks db !! k = Some (SQLReader.read rd k db))
  ∧ (∀ ks series,
       SQLReader.read_all rd ks db !! k = Some series →
       series = SQLReader.read rd k db ∧ step_ascending series)
  ∧ (reader_scope rd = reporter_scope rep →
     (s2 < s1)%Z →
     let first := SQLReporter.report_all rep s1 [(k, v1)] db in
     let second := SQLReporter.report_all rep s2 [(k, v2)] first.2 in
     first.1 = Return tt → second.1 = Return tt →
     ∃ i j, (i < j)%nat
            ∧ SQLReader.read rd k second.2 !! i
                = Some (step_value s2 (bind_real (Some v2)))
            ∧ SQLReader.read rd k second.2 !! j
                = Some (step_value s1 (bind_real (Some v1)))).
Proof.
  split; [|split; [|split; [|split; [|split]]]].
  - rewrite read_rows. by rewrite order_by_Permutation.
  - apply read_step_ascending.
  - intros i j x y a b. apply step_ascending_positions, read_step_ascending.
  - intros ks Hks Hne. rewrite read_all_lookup, decide_True by done.
    by destruct (SQLReader.read rd k db).
  - intros ks series. rewrite read_all_lookup. case_decide; [|done].
    pose proof (read_step_ascending rd db k) as Hasc.
    destruct (SQLReader.read rd k db); [done|]. by intros [= <-].
  - intros Hsame Hlt first second Hfirst Hsecond.
    destruct (report_all_visible_same rep rd s1 [(k, v1)] db Hsame Hfirst)
      as (rows1 & Hv1 & Hrows1).
    destruct (report_all_visible_same rep rd s2 [(k, v2)] first.2 Hsame Hsecond)
      as (rows2 & Hv2 & Hrows2).
    apply Forall2_cons_inv_r in Hrows1
      as (new1 & ? & [i1 ->] & ->%Forall2_nil_inv_r & ->).
    apply Forall2_cons_inv_r in Hrows2
      as (new2 & ? & [i2 ->] & ->%Forall2_nil_inv_r & ->).
    fold first in Hv1. fold second in Hv2. rewrite Hv1 in Hv2.
    assert (step_value s1 (bind_real (Some v1)) ∈ SQLReader.read rd k second.2) as Hin1.
    { apply elem_of_read.
      exists (Metric.with_id i1 (stored (SQLReporter._metric rep s1 k v1))).
      split; [|by split].
      rewrite Hv2. apply elem_of_app. left. apply elem_of_app. right. left. }
    assert (step_value s2 (bind_real (Some v2)) ∈ SQLReader.read rd k second.2) as Hin2.
    { apply elem_of_read.
      exists (Metric.with_id i2 (stored (SQLReporter._metric rep s2 k v2))).
      split; [|by split].
      rewrite Hv2. apply elem_of_app. right. left. }
    apply list_elem_of_lookup in Hin1 as [j Hj], Hin2 as [i Hi].
    exists i, j. split; [|done].
    apply (step_ascending_positions _ i j _ _ s2 s1 (read_step_ascending _ _ _) Hi Hj);
      [done..|lia].
Qed.

(** Reporting step 5 and then step 2 reads back as step 2, then step 5. *)
Example read_out_of_order :
  SQLReader.read scenario.reader "loss" scenario.out_of_order =
    [step_value 2 (Some scenario.f0_5); step_value 5 (Some scenario.f0_9)].
Proof. reflexivity. Qed.

Lemma relational_series_step_ascending_witness :
  ∃ i j, (i < j)%nat
         ∧ SQLReader.read scenario.reader "loss" scenario.out_of_order !! i
             = Some (step_value 2 (Some scenario.f0_5))
         ∧ SQLReader.read scenario.reader "loss" scenario.out_of_order !! j
             = Some (step_value 5 (Some scenario.f0_9)).
Proof.
  assert (2 < 5)%Z as Hlt by lia.
  destruct (relational_series_step_ascending scenario.reader scenario.db0 "loss"
              scenario.reporter 5 2 scenario.f0_9 scenario.f0_5)
    as (_ & _ & _ & _ & _ & Hinstance).
  apply (Hinstance eq_refl Hlt); reflexivity.
Defined.

(** C5: a series that [read_all(ks)] maps a key to is the series [read]
    returns for that key. *)
Theorem read_all_agrees_with_read rd ks db k series :
  SQLReader.read_all rd ks db !! k = Some series →
  series = SQLReader.read rd k db.
Proof.
  rewrite read_all_lookup. case_decide; [|done].
  destruct (SQLReader.read rd k db); [done|]. by intros [= <-].
Qed.

Lemma read_all_agrees_with_read_witness :
  [step_value 0 (Some scenario.f0_9); step_value 1 (Some scenario.f0_5)] =
    SQLReader.read scenario.reader "loss" scenario.db2.
Proof.
  apply (read_all_agrees_with_read scenario.reader ["loss"; "missing"]).
  vm_compute. reflexivity.
Defined.

Lemma read_all_groups_sorted_stream_witness :
  is_Some (SQLReader.read_all scenario.reader ["loss"; "missing"] scenario.db2 !! "loss")
  ∧ SQLReader.read_all scenario.reader ["loss"; "missing"] scenario.db2 !! "missing" = None.
Proof.
  destruct (read_all_groups_sorted_stream
              scenario.reader ["loss"; "missing"] scenario.db2)
    as (_ & _ & Hlookup & Hsome & _).
  split.
  - apply Hsome. split; [left|].
    exists (Metric.Build (Some 1) 1 1 0 "loss" (Some scenario.f0_9)).
    split; [vm_compute; left|reflexivity].
  - rewrite Hlookup. vm_compute. reflexivity.
Defined.

(** ** Scopes *)

(** C6: a row written by a reporter carries the reporter's experiment id and
    run id (and the step of the call, the tag of an entry and its value as the
    store keeps it); what a reader returns is made of the rows that carry the
    reader's own pair, so a batch that was stored is visible to a reader with
    the reporter's pair (together with what that reader saw before) and
    changes nothing for a reader with another run id or another experiment,
    whether the call returned or raised. *)
Theorem scope_isolation rep rd rd' step m db :
  reader_scope rd = reporter_scope rep →
  reader_scope rd' ≠ reporter_scope rep →
  let db' := (SQLReporter.report_all rep step m db).2 in
  (∀ row, row ∈ metrics db' →
     row ∈ metrics db
     ∨ (Metric.experiment_id row, Metric.run_id row) = reporter_scope rep
       ∧ Metric.step row = step
       ∧ ∃ v, (Metric.tag row, v) ∈ m ∧ Metric.value row = bind_real (Some v))
  ∧ (∀ k, k ∈ SQLReader.keys rd db ↔
            ∃ row, row ∈ metrics db
                   ∧ (Metric.experiment_id row, Metric.run_id row) = reader_scope rd
                   ∧ Metric.tag row = k)
  ∧ (∀ k record, record ∈ SQLReader.read rd k db ↔
            ∃ row, row ∈ metrics db
                   ∧ (Metric.experiment_id row, Metric.run_id row) = reader_scope rd
                   ∧ Metric.tag row = k
                   ∧ record = step_value (Metric.step row) (Metric.value row))
  ∧ ((SQLReporter.report_all rep step m db).1 = Return tt →
     ∀ k v, (k, v) ∈ m →
       k ∈ SQLReader.keys rd db'
       ∧ step_value step (bind_real (Some v)) ∈ SQLReader.read rd k db'
       ∧ ∀ ks, k ∈ ks →
           ∃ series, SQLReader.read_all rd ks db' !! k = Some series
                     ∧ step_value step (bind_real (Some v)) ∈ series)
  ∧ (∀ k record, record ∈ SQLReader.read rd k db → record ∈ SQLReader.read rd k db')
  ∧ SQLReader.keys rd' db' = SQLReader.keys rd' db
  ∧ (∀ k, SQLReader.read rd' k db' = SQLReader.read rd' k db)
  ∧ (∀ ks, SQLReader.read_all rd' ks db' = SQLReader.read_all rd' ks db).
Proof.
  intros Hsame Hother db'.
  destruct (decide ((SQLReporter.report_all rep step m db).1 = Return tt))
    as [Hok|Hraise].
  2: { pose proof (report_all_raises rep step m db Hraise) as Hm.
       pose proof (report_all_visible_raises rep rd step m db Hraise) as Hv.
       fold db' in Hm, Hv.
       split; [intros row; rewrite Hm; by left|].
       split; [|split; [|split; [done|split]]].
       - intros k. rewrite elem_of_keys. setoid_rewrite elem_of_visible.
         split; intros (row & ?); exists row; tauto.
       - intros k record. rewrite elem_of_read. setoid_rewrite elem_of_visible.
         split; intros (row & ?); exists row; tauto.
       - intros k record. rewrite !elem_of_read. by rewrite Hv.
       - apply reader_queries_visible. by apply report_all_visible_other. }
  assert (∀ k v, (k, v) ∈ m →
            ∃ row, row ∈ visible rd db' ∧ Metric.tag row = k
                   ∧ row_record row = step_value step (bind_real (Some v))) as Hnew.
  { intros k v Hkv.
    destruct (report_all_visible_same rep rd step m db Hsame Hok)
      as (rows' & Hv & Hrows').
    apply list_elem_of_lookup in Hkv as [i Hi].
    destruct (Forall2_lookup_r _ _ _ _ _ Hrows' Hi) as (row & Hrow & [j ->]).
    exists (Metric.with_id j (stored (SQLReporter._metric rep step k v))).
    split; [|done]. unfold db'. rewrite Hv. apply elem_of_app. right.
    by eapply list_elem_of_lookup_2. }
  split; [|split; [|split; [|split; [|split]]]].
  - intros row. unfold db'.
    destruct (report_all_metrics rep step m db Hok) as (rows' & -> & Hrows').
    intros [?|Hin]%elem_of_app; [by left|right].
    apply list_elem_of_lookup in Hin as [i Hi].
    destruct (Forall2_lookup_l _ _ _ _ _ Hrows' Hi) as ([k v] & Hkv & [j ->]).
    simpl. split; [done|]. split; [done|]. exists v. split; [|done].
    by eapply list_elem_of_lookup_2.
  - intros k. rewrite elem_of_keys. setoid_rewrite elem_of_visible.
    split; intros (row & ?); exists row; tauto.
  - intros k record. rewrite elem_of_read. setoid_rewrite elem_of_visible.
    split; intros (row & ?); exists row; tauto.
  - intros _ k v Hkv. destruct (Hnew k v Hkv) as (row & Hrow & Htag & Hrec).
    assert (step_value step (bind_real (Some v)) ∈ SQLReader.read rd k db') as Hread.
    { apply elem_of_read. exists row. by rewrite Hrec. }
    split; [apply elem_of_keys; by exists row|]. split; [done|].
    intros ks Hks. rewrite read_all_lookup, decide_True by done.
    destruct (SQLReader.read rd k db') as [|r l]; [by apply elem_of_nil in Hread|].
    by eexists.
  - intros k record. rewrite !elem_of_read.
    intros (row & Hrow & ?). exists row. split; [|done].
    destruct (report_all_visible_same rep rd step m db Hsame Hok) as (rows' & Hv & _).
    unfold db'. rewrite Hv. apply elem_of_app. by left.
  - apply reader_queries_visible. by apply report_all_visible_other.
Qed.

Lemma scope_isolation_witness :
  step_value 1 (Some scenario.f0_5) ∈ SQLReader.read scenario.reader "loss" scenario.db2
  ∧ SQLReader.read scenario.other_run "loss" scenario.db2 =
      SQLReader.read scenario.other_run "loss" scenario.db1.
Proof.
  assert (reader_scope scenario.reader = reporter_scope scenario.reporter) as Hsame
    by reflexivity.
  assert (reader_scope scenario.other_run ≠ reporter_scope scenario.reporter) as Hother
    by discriminate.
  destruct (scope_isolation scenario.reporter scenario.reader scenario.other_run
              1 [("loss", scenario.f0_5); ("acc", scenario.f0_4)] scenario.db1
              Hsame Hother)
    as (_ & _ & _ & Hvisible & _ & _ & Hread & _).
  split; [|apply Hread].
  apply (Hvisible eq_refl "loss" scenario.f0_5). left.
Defined.

Lemma reader_of_reporter_scope rep db rd :
  SQLReporter.reader rep db = Return rd → reader_scope rd = reporter_scope rep.
Proof.
  unfold SQLReporter.reader, SQLReader.__init__.
  destruct (negb _); [done|]. by intros [= <-].
Qed.

(** ** Construction *)

(** Once the file is there it stays, and [report_all] does not create or
    drop tables in it. *)
Lemma report_all_flags rep step m db :
  sqlite_file db = true →
  sqlite_file (SQLReporter.report_all rep step m db).2 = true
  ∧ tables (SQLReporter.report_all rep step m db).2 = tables db.
Proof.
  intros Hfile. unfold SQLReporter.report_all, add_all_commit, connect.
  destruct m as [|kv m]; [simpl; by split|]. rewrite fmap_cons, Hfile. simpl.
  destruct (tables db) eqn:Htables; simpl; [|by split].
  case_decide; simpl; by split.
Qed.

Lemma run_reports_flags calls db :
  sqlite_file db = true →
  sqlite_file (run_reports calls db) = true
  ∧ tables (run_reports calls db) = tables db.
Proof.
  revert db. induction calls as [|[[rep step] m] calls IH]; intros db Hfile; [done|].
  simpl. destruct (report_all_flags rep step m db Hfile) as [Hfile' <-].
  by apply IH.
Qed.

(** A process that starts on a missing store, with no reporter and no reader,
    stays as it is whatever calls of the backend it makes. *)
Lemma backend_steps_missing_store p q :
  sqlite_file (store p) = false → reporters p = [] → readers p = [] →
  rtc backend_step p q → q = p.
Proof.
  intros Hfile Hreporters Hreaders Hsteps.
  induction Hsteps as [p|p p' q Hstep _ IH]; [done|].
  assert (p' = p) as ->; [|by apply IH].
  destruct Hstep as [p engine experiment run_id|p engine experiment run_id step_key
                    |p r step m Hr|p r Hr|p r Hr].
  - unfold SQLReporter.__init__, sqlite_file_exists. by rewrite Hfile.
  - unfold SQLReader.__init__, sqlite_file_exists. by rewrite Hfile.
  - rewrite Hreporters in Hr. by apply elem_of_nil in Hr.
  - rewrite Hreporters in Hr. by apply elem_of_nil in Hr.
  - rewrite Hreaders in Hr. by apply elem_of_nil in Hr.
Qed.

(** C8: when the file of the store does not exist, constructing a reporter
    or a reader raises at once.  The backend then never creates the file: a
    process that starts on the missing store without reporter or reader
    cannot get one, so whatever calls of the backend it makes leave the store
    as it is.  It is the guard of the constructors that keeps the file from
    being created: a session that commits rows to the missing store creates
    the file before the insert fails. *)
Theorem constructors_need_store engine experiment run_id step_key db p q :
  sqlite_file_exists engine db = false →
  store p = db → reporters p = [] → readers p = [] →
  rtc backend_step p q →
  SQLReporter.__init__ engine experiment run_id db =
    Raise (Exception
      (url engine +:+
       " doesn't exist! Create the database before creating a reporter."))
  ∧ SQLReader.__init__ engine experiment run_id step_key db =
      Raise (Exception
        (url engine +:+
         " doesn't exist! Create the database before creating a reader."))
  ∧ q = p
  ∧ (∀ rep step m,
       m ≠ [] →
       (SQLReporter.report_all rep step m db).1 =
         Raise (OperationalError "no such table: metrics")
       ∧ sqlite_file (SQLReporter.report_all rep step m db).2 = true).
Proof.
  intros Hfile Hstore Hreporters Hreaders Hsteps.
  unfold SQLReporter.__init__, SQLReader.__init__.
  rewrite Hfile. simpl. split; [done|]. split; [done|]. split.
  - apply backend_steps_missing_store; [|done..]. by rewrite Hstore.
  - intros rep step m Hm. unfold SQLReporter.report_all, add_all_commit, connect.
    destruct m as [|kv m]; [done|]. simpl.
    unfold sqlite_file_exists in Hfile. by rewrite Hfile.
Qed.

Lemma constructors_need_store_witness :
  SQLReporter.__init__ scenario.engine scenario.exp 1 scenario.no_file =
    Raise (Exception
      "sqlite:///metrics.db doesn't exist! Create the database before creating a reporter.").
Proof.
  apply (constructors_need_store scenario.engine scenario.exp 1 None scenario.no_file
           {| store := scenario.no_file; reporters := []; readers := [] |}
           {| store := scenario.no_file; reporters := []; readers := [] |}
           eq_refl eq_refl eq_refl eq_refl).
  apply rtc_once.
  apply (construct_reporter
           {| store := scenario.no_file; reporters := []; readers := [] |}
           scenario.engine scenario.exp 1).
Defined.

(** C9: the [step_key] argument of the reader's constructor changes nothing:
    two constructions that differ in it only give the same result, and the
    readers they give answer every query alike. *)
Theorem step_key_is_ignored engine experiment run_id step_key1 step_key2 db :
  SQLReader.__init__ engine experiment run_id step_key1 db =
    SQLReader.__init__ engine experiment run_id step_key2 db
  ∧ ∀ rd1 rd2,
      SQLReader.__init__ engine experiment run_id step_key1 db = Return rd1 →
      SQLReader.__init__ engine experiment run_id step_key2 db = Return rd2 →
      ∀ db',
        SQLReader.keys rd1 db' = SQLReader.keys rd2 db'
        ∧ (∀ k, SQLReader.read rd1 k db' = SQLReader.read rd2 k db')
        ∧ (∀ ks, SQLReader.read_all rd1 ks db' = SQLReader.read_all rd2 ks db').
Proof.
  assert (SQLReader.__init__ engine experiment run_id step_key1 db =
            SQLReader.__init__ engine experiment run_id step_key2 db) as Heq.
  { unfold SQLReader.__init__. by destruct (negb _). }
  split; [done|].
  intros rd1 rd2 H1 H2 db'. rewrite Heq, H2 in H1. by injection H1 as ->.
Qed.

Lemma step_key_is_ignored_witness :
  SQLReader.__init__ scenario.engine scenario.exp 1 None scenario.db0 =
    SQLReader.__init__ scenario.engine scenario.exp 1 (Some "epoch") scenario.db0
  ∧ SQLReader.read scenario.reader "loss" scenario.db2 =
      SQLReader.read scenario.reader "loss" scenario.db2.
Proof.
  destruct (step_key_is_ignored scenario.engine scenario.exp 1
              None (Some "epoch") scenario.db0) as [Hinit Hqueries].
  split; [exact Hinit|].
  apply (Hqueries scenario.reader scenario.reader eq_refl eq_refl scenario.db2).
Defined.

(** ** Report, then read *)

Lemma memory_report_one step k x (m : ListDict) :
  well_formed m →
  MemoryReader.read (MemoryReporter.report_all step [(k, x)] m) k =
    MemoryReader.read m k ++ [x].
Proof.
  intros Hwf.
  unfold MemoryReader.read, MemoryReporter.report_all,
    MemoryReporter.setdefault_append. simpl.
  destruct (refs m !! k) as [address|] eqn:Hk; simpl.
  - rewrite Hk. apply Hwf in Hk. apply lookup_lt_is_Some in Hk as [l Hl].
    by rewrite list_lookup_alter_eq, Hl.
  - by rewrite lookup_insert_eq, lookup_app_r, Nat.sub_diag.
Qed.

(** The memory reporter never looks at the step. *)
Lemma memory_report_all_step step step' kvs (m : ListDict) :
  MemoryReporter.report_all step kvs m = MemoryReporter.report_all step' kvs m.
Proof. reflexivity. Qed.

Lemma sql_report_one rep rd step k v db :
  reader_scope rd = reporter_scope rep →
  (SQLReporter.report_all rep step [(k, v)] db).1 = Return tt →
  SQLReader.read rd k (SQLReporter.report_all rep step [(k, v)] db).2
    ≡ₚ step_value step (bind_real (Some v)) :: SQLReader.read rd k db.
Proof.
  intros Hsame Hok. rewrite !read_rows. unfold visible_tag.
  destruct (report_all_visible_same rep rd step [(k, v)] db Hsame Hok)
    as (rows' & -> & Hrows').
  apply Forall2_cons_inv_r in Hrows' as (new & rest & [i ->] & ->%Forall2_nil_inv_r & ->).
  rewrite filter_app, filter_cons_True, filter_nil by done.
  rewrite !order_by_Permutation, fmap_app. simpl.
  by rewrite <-Permutation_cons_append.
Qed.

(** C1, as the code has it.  Through the relational backend, reporting
    [{t: v}] at step [s] returns exactly when the file and the tables of the
    store are there and the step and the two ids of the reporter fit in 64
    bits; it then adds one record at step [s] to the series that a reader of
    the same scope returns for [t], and nothing else.  The record holds the
    value as the store keeps it: [v] itself unless [v] is NaN (kept as NULL,
    read as [None]) or a negative zero (read as zero); so for such a [v] the
    record [{step: s, value: v}] is there once more than before, and exactly
    once when it was not there before.  A call that raises leaves the series
    as it was.  Through the memory backend the series of [t] gains the bare
    value, and the step is not stored. *)
Theorem report_then_read rep rd db s s' t v x (m : ListDict) :
  reader_scope rd = reporter_scope rep →
  well_formed m →
  let after := SQLReporter.report_all rep s [(t, v)] db in
  (after.1 = Return tt ↔
     sqlite_file db = true ∧ tables db = true
     ∧ int64 (Experiment.id (SQLReporter._experiment rep))
     ∧ int64 (SQLReporter._run_id rep) ∧ int64 s)
  ∧ (after.1 = Return tt →
     SQLReader.read rd t after.2
       ≡ₚ step_value s (bind_real (Some v)) :: SQLReader.read rd t db
     ∧ count_occ Metric_eq_dec (SQLReader.read rd t after.2)
         (step_value s (bind_real (Some v))) =
         S (count_occ Metric_eq_dec (SQLReader.read rd t db)
              (step_value s (bind_real (Some v))))
     ∧ (step_value s (bind_real (Some v)) ∉ SQLReader.read rd t db →
        count_occ Metric_eq_dec (SQLReader.read rd t after.2)
          (step_value s (bind_real (Some v))) = 1%nat))
  ∧ (v ≠ S754_nan → v ≠ S754_zero true →
     step_value s (bind_real (Some v)) =
       t.PyDict [("step", t.PyInt s); ("value", t.PyFloat v)])
  ∧ step_value s (bind_real (Some S754_nan)) =
      t.PyDict [("step", t.PyInt s); ("value", t.PyNone)]
  ∧ (after.1 ≠ Return tt → SQLReader.read rd t after.2 = SQLReader.read rd t db)
  ∧ MemoryReader.read (MemoryReporter.report_all s [(t, x)] m) t =
      MemoryReader.read m t ++ [x]
  ∧ MemoryReporter.report_all s [(t, x)] m = MemoryReporter.report_all s' [(t, x)] m.
Proof.
  intros Hsame Hwf after.
  split; [|split; [|split; [|split; [|split]]]].
  - unfold after. rewrite report_all_outcome. split.
    + by intros [?|?].
    + by right.
  - intros Hok.
    pose proof (sql_report_one rep rd s t v db Hsame Hok) as Hperm. fold after in Hperm.
    assert (count_occ Metric_eq_dec (SQLReader.read rd t after.2)
              (step_value s (bind_real (Some v))) =
            S (count_occ Metric_eq_dec (SQLReader.read rd t db)
                 (step_value s (bind_real (Some v))))) as Hcount.
    { rewrite (proj1 (Permutation_count_occ Metric_eq_dec _ _) Hperm).
      by rewrite count_occ_cons_eq. }
    split; [done|]. split; [done|].
    intros Hnew. rewrite Hcount. f_equal.
    apply count_occ_not_In. by rewrite <-list_elem_of_In.
  - intros Hnan Hzero. by destruct v as [[]| | |].
  - done.
  - intros Hraise. unfold after in *. rewrite !read_rows. unfold visible_tag.
    by rewrite (report_all_visible_raises rep rd s [(t, v)] db Hraise).
  - split; [by apply memory_report_one|apply memory_report_all_step].
Qed.

Lemma report_then_read_witness :
  count_occ Metric_eq_dec
    (SQLReader.read scenario.reader "loss"
       (SQLReporter.report_all scenario.reporter 2 [("loss", scenario.f0_4)] scenario.db2).2)
    (step_value 2 (Some scenario.f0_4)) = 1%nat.
Proof.
  assert (reader_scope scenario.reader = reporter_scope scenario.reporter) as Hsame
    by reflexivity.
  assert (well_formed (MemoryReporter.__init__ None)) as Hwf
    by (intros k address Hk; simpl in Hk; by rewrite lookup_empty in Hk).
  destruct (report_then_read scenario.reporter scenario.reader scenario.db2
              2 3 "loss" scenario.f0_4 (t.PyFloat scenario.f0_4)
              (MemoryReporter.__init__ None) Hsame Hwf)
    as (_ & Hstored & _).
  destruct (Hstored eq_refl) as (_ & _ & Honce).
  apply Honce. vm_compute.
  intros Hin; repeat (apply elem_of_cons in Hin as [Hin|Hin]; [discriminate|]).
  by apply elem_of_nil in Hin.
Defined.

(** C1, as stated, fails for the memory backend: after reporting
    [{"loss": 0.5}] at step 5 to a fresh memory reporter, the series read
    back is [[0.5]]; the record [{step: 5, value: 0.5}] is not in it. *)
Lemma memory_read_has_no_step_record :
  MemoryReader.read
    (MemoryReporter.report_all 5 [("loss", t.PyFloat scenario.f0_5)]
       (MemoryReporter.__init__ None)) "loss" = [t.PyFloat scenario.f0_5]
  ∧ count_occ Metric_eq_dec
      (MemoryReader.read
         (MemoryReporter.report_all 5 [("loss", t.PyFloat scenario.f0_5)]
            (MemoryReporter.__init__ None)) "loss")
      (step_value 5 (Some scenario.f0_5)) ≠ 1%nat.
Proof. split; [reflexivity|]. vm_compute. discriminate. Qed.

(** Reporting the same batch twice stores two rows: the relational series
    then holds the record twice. *)
Example sql_report_twice :
  SQLReader.read scenario.reader "loss"
    (SQLReporter.report_all scenario.reporter 0 [("loss", scenario.f0_9)] scenario.db1).2
  = [step_value 0 (Some scenario.f0_9); step_value 0 (Some scenario.f0_9)].
Proof. reflexivity. Qed.

(** A reported NaN is read back as [None]. *)
Example sql_report_nan :
  SQLReader.read scenario.reader "loss"
    (SQLReporter.report_all scenario.reporter 0 [("loss", S754_nan)] scenario.db0).2
  = [t.PyDict [("step", t.PyInt 0); ("value", t.PyNone)]].
Proof. reflexivity. Qed.

(** A step of 2^63 does not fit: the call raises and stores nothing. *)
Example sql_report_overflow :
  SQLReporter.report_all scenario.reporter (2 ^ 63) [("loss", scenario.f0_9)] scenario.db0
  = (Raise OverflowError, scenario.db0).
Proof. reflexivity. Qed.

(** ** Reading what was never written *)

Lemma memory_read_unwritten (m : ListDict) k :
  refs m !! k = None → MemoryReader.read m k = [].
Proof. unfold MemoryReader.read. by intros ->. Qed.





(** ** The file reader *)

Lemma splitlines_line l rest :
  LF ∉ l → CR ∉ l → splitlines (l ++ LF :: rest) = l :: splitlines rest.
Proof.
  induction l as [|b l IH]; intros HLF HCR; simpl.
  - done.
  - apply not_elem_of_cons in HLF as [? ?], HCR as [? ?].
    rewrite !decide_False by done. by rewrite IH.
Qed.

Lemma splitlines_lines lines :
  Forall terminator_free lines →
  splitlines (mjoin ((λ l, l ++ [LF]) <$> lines)) = lines.
Proof.
  induction 1 as [|l lines [? ?] _ IH]; [done|].
  simpl. rewrite <-app_assoc. simpl. rewrite splitlines_line by done.
  f_equal. exact IH.
Qed.

(** A comprehension raises what its body raised on one of the elements. *)
Lemma comprehension_Raise {A B} (f : A → result B) l e :
  comprehension f l = Raise e → ∃ x, x ∈ l ∧ f x = Raise e.
Proof.
  induction l as [|x l IH]; [done|]. simpl.
  destruct (f x) as [y|e'] eqn:Hx; cbn.
  - destruct (comprehension f l) as [ys|e'']; cbn; [done|].
    intros [= ->]. destruct IH as (x' & ? & ?); [done|].
    exists x'. split; [by right|done].
  - intros [= ->]. exists x. split; [left|done].
Qed.

Lemma loads_line_error decode json_loads line path :
  FSReader.loads_line decode json_loads line ≠ Raise (ResourceNotFound path).
Proof.
  unfold FSReader.loads_line.
  destruct (decode line) as [str|]; [|done]. by destruct (json_loads str).
Qed.

Lemma comprehension_loads_line decode json_loads lines path :
  comprehension (FSReader.loads_line decode json_loads) lines
    ≠ Raise (ResourceNotFound path).
Proof.
  intros (line & _ & Hline)%comprehension_Raise.
  by apply loads_line_error in Hline.
Qed.

Lemma fs_read_present jsonl_path decode json_loads
    (fs : gmap string (list byte)) k content :
  fs !! jsonl_path k = Some content →
  FSReader.read jsonl_path decode json_loads fs k =
    comprehension (FSReader.loads_line decode json_loads) (splitlines content).
Proof.
  intros Hfs. unfold FSReader.read, FSReader.open_read. rewrite Hfs. simpl.
  pose proof (comprehension_loads_line decode json_loads (splitlines content)) as Hne.
  destruct (comprehension _ _) as [records|[]]; try done.
  by destruct (Hne path).
Qed.

(** C10: a series file that exists and is empty reads as the empty list, not
    as a decode error.  More generally, when every line of the file ends with
    a line feed, the reader decodes exactly these lines: the terminator of the
    last one does not add an empty line. *)
Theorem fs_read_empty_file jsonl_path decode json_loads
    (fs : gmap string (list byte)) k :
  (fs !! jsonl_path k = Some [] →
   FSReader.read jsonl_path decode json_loads fs k = Return [])
  ∧ (∀ lines,
       Forall terminator_free lines →
       fs !! jsonl_path k = Some (mjoin ((λ l, l ++ [LF]) <$> lines)) →
       FSReader.read jsonl_path decode json_loads fs k =
         comprehension (FSReader.loads_line decode json_loads) lines).
Proof.
  split.
  - intros Hfs. by rewrite (fs_read_present _ _ _ _ _ _ Hfs).
  - intros lines Hlines Hfs.
    by rewrite (fs_read_present _ _ _ _ _ _ Hfs), splitlines_lines.
Qed.

Lemma fs_read_empty_file_witness :
  FSReader.read scenario.jsonl_path scenario.decode scenario.json_loads
    scenario.files "empty" = Return []
  ∧ FSReader.read scenario.jsonl_path scenario.decode scenario.json_loads
      scenario.files "loss" = Return [t.PyInt 1; t.PyInt 2].
Proof.
  split.
  - apply (fs_read_empty_file scenario.jsonl_path scenario.decode
             scenario.json_loads scenario.files "empty").
    reflexivity.
  - apply (proj2 (fs_read_empty_file scenario.jsonl_path scenario.decode
                    scenario.json_loads scenario.files "loss") [[x31]; [x32]]).
    + repeat constructor; intros Hin;
        repeat (apply elem_of_cons in Hin as [Hin|Hin]; [discriminate|]);
        by apply elem_of_nil in Hin.
    + reflexivity.
Defined.

(** A lone line feed is one empty line, and decoding it is up to the codec. *)
Example splitlines_lone_LF : splitlines [LF] = [[]].
Proof. reflexivity. Qed.

(** ** The lambda reporter *)

(** C7: a lambda reporter without [report] and without [report_all] cannot
    be constructed; one that was given [report_all] only answers
    [report(step, k, v)] by calling that function with the mapping [{k: v}]. *)
Theorem lambda_reporter_delegates {S : Type}
    (f : Z → list (string * t.Metric) → S → result S)
    (close : option (S → result S)) (depth : nat) step k v (s : S) :
  (2 ≤ depth)%nat →
  LambdaReporter.__init__ None None close =
    Raise (ValueError
      "Must supply one of `report` and `report_all` to `LambdaReporter`.")
  ∧ ∃ r, LambdaReporter.__init__ None (Some f) close = Return r
         ∧ LambdaReporter.report depth r step k v s = f step [(k, v)] s.
Proof.
  intros Hdepth. split; [done|]. eexists. split; [done|].
  destruct depth as [|[|depth]]; [lia..|]. reflexivity.
Qed.

Lemma lambda_reporter_delegates_witness :
  LambdaReporter.report 2
    (LambdaReporter.Build None (Some scenario.log_all) None)
    3 "loss" (t.PyInt 1) []
  = Return [(3, [("loss", t.PyInt 1)])].
Proof.
  assert (2 ≤ 2)%nat as Hdepth by lia.
  destruct (lambda_reporter_delegates scenario.log_all None 2 3 "loss"
              (t.PyInt 1) [] Hdepth) as [_ (r & [= <-] & Hr)].
  exact Hr.
Defined.

(** Without the guard of the constructor the two defaults would call each
    other until the stack is exhausted. *)
Example lambda_reporter_unguarded {S : Type} depth step k v (s : S) :
  LambdaReporter.report depth (LambdaReporter.Build None None None) step k v s
    = Raise RecursionError.
Proof.
  revert step k v s. induction (lt_wf depth) as [depth _ IH]. intros step k v s.
  destruct depth as [|[|depth]]; [done..|]. simpl.
  unfold AbstractReporter.report, AbstractReporter.report_all. simpl.
  by rewrite (IH depth) by lia.
Qed.

(** * Further properties of the code *)

(** ** The relational reporter: batches *)

Lemma forget_id_committed new old :
  committed new old → forget_id new = stored (forget_id old).
Proof. by intros [i ->]. Qed.

Lemma committed_rows_forget_id rows' rows :
  Forall2 committed rows' rows →
  forget_id <$> rows' = (λ row, stored (forget_id row)) <$> rows.
Proof.
  induction 1 as [|new old rows' rows Hnew _ IH]; [done|].
  rewrite !fmap_cons, IH. f_equal. by apply forget_id_committed.
Qed.

(** [report_all] stores its batch entirely or not at all.  It returns
    exactly when the batch is empty, or the file and the tables of the store
    are there and the step and the two ids of the reporter fit in 64 bits.
    It then only appends: the rows that were there stay as they are and in
    place, and the batch adds one row per entry, in the order of the batch,
    each with a primary key, the reporter's ids, the step of the call, the
    tag of the entry and its value as the store keeps it.  A call that raises
    leaves the rows as they were.  The table of experiments is never
    touched. *)
Theorem report_all_appends rep step m db :
  let after := SQLReporter.report_all rep step m db in
  (after.1 = Return tt ↔
     m = [] ∨ (sqlite_file db = true ∧ tables db = true
               ∧ int64 (Experiment.id (SQLReporter._experiment rep))
               ∧ int64 (SQLReporter._run_id rep) ∧ int64 step))
  ∧ (after.1 = Return tt →
     ∃ rows',
       metrics after.2 = metrics db ++ rows'
       ∧ forget_id <$> rows' =
           (λ kv, stored (SQLReporter._metric rep step kv.1 kv.2)) <$> m
       ∧ Forall (λ row, is_Some (Metric.id row)) rows')
  ∧ (after.1 ≠ Return tt → metrics after.2 = metrics db)
  ∧ experiment after.2 = experiment db.
Proof.
  intros after. split; [apply report_all_outcome|].
  split; [|split; [apply report_all_raises|apply add_all_commit_experiment]].
  intros Hok.
  destruct (add_all_commit_metrics
              ((λ kv, SQLReporter._metric rep step kv.1 kv.2) <$> m) db Hok)
    as (rows' & Hm & Hrows').
  exists rows'. split; [exact Hm|]. split.
  - rewrite (committed_rows_forget_id _ _ Hrows'), <-list_fmap_compose.
    by apply list_fmap_ext.
  - clear Hm. induction Hrows' as [|new old ?? [i ->] _ IH]; constructor; [|done].
    by eexists.
Qed.

Lemma report_all_appends_witness :
  length (metrics scenario.db1) = 2%nat.
Proof.
  destruct (report_all_appends scenario.reporter 0
              [("loss", scenario.f0_9); ("acc", scenario.f0_1)] scenario.db0)
    as (_ & Hstored & _).
  destruct (Hstored eq_refl) as (rows' & Hm & Hrows' & _).
  unfold scenario.db1. rewrite Hm, length_app.
  by rewrite <-(length_fmap forget_id rows'), Hrows'.
Defined.

Lemma committed_batch_records rep step k m rows' :
  Forall2 (λ new kv, committed new (SQLReporter._metric rep step kv.1 kv.2)) rows' m →
  row_record <$> filter (λ row, Metric.tag row = k) rows' =
    (λ v, step_value step (bind_real (Some v))) <$> batch_values k m.
Proof.
  unfold batch_values.
  induction 1 as [|new [k' v] rows' m [i ->] _ IH]; [done|].
  rewrite !filter_cons. simpl.
  destruct (decide (k' = k)) as [->|Hne]; [|done].
  rewrite !fmap_cons, IH. done.
Qed.

(** After a batch that was stored, the series a reader of the reporter's
    scope returns for a key is made of the records it returned before and of
    one record, at the step of the call, per value the batch holds for that
    key, with the value as the store keeps it (NaN read as [None], a negative
    zero as zero).  After a call that raised, the series is as it was. *)
Theorem report_all_batch_read rep rd step m db k :
  reader_scope rd = reporter_scope rep →
  let after := SQLReporter.report_all rep step m db in
  (after.1 = Return tt →
   SQLReader.read rd k after.2
     ≡ₚ SQLReader.read rd k db
        ++ ((λ v, step_value step (bind_real (Some v))) <$> batch_values k m))
  ∧ (after.1 ≠ Return tt → SQLReader.read rd k after.2 = SQLReader.read rd k db).
Proof.
  intros Hsame after. unfold after. split.
  - intros Hok. rewrite !read_rows. unfold visible_tag.
    destruct (report_all_visible_same rep rd step m db Hsame Hok)
      as (rows' & -> & Hrows').
    rewrite filter_app, !order_by_Permutation, fmap_app.
    by rewrite (committed_batch_records rep step k m rows').
  - intros Hraise. rewrite !read_rows. unfold visible_tag.
    by rewrite (report_all_visible_raises rep rd step m db Hraise).
Qed.

Lemma report_all_batch_read_witness :
  SQLReader.read scenario.reader "acc" scenario.db2
    ≡ₚ SQLReader.read scenario.reader "acc" scenario.db1
       ++ ((λ v, step_value 1 (bind_real (Some v))) <$>
             batch_values "acc" [("loss", scenario.f0_5); ("acc", scenario.f0_4)]).
Proof.
  apply (report_all_batch_read scenario.reporter scenario.reader 1
           [("loss", scenario.f0_5); ("acc", scenario.f0_4)] scenario.db1 "acc");
    reflexivity.
Defined.

(** After [report_all], the keys of a reader of the reporter's scope are the
    keys it had and, when the call returned, the keys of the batch. *)
Theorem report_all_keys rep rd step m db k :
  reader_scope rd = reporter_scope rep →
  k ∈ SQLReader.keys rd (SQLReporter.report_all rep step m db).2
  ↔ k ∈ SQLReader.keys rd db
    ∨ ((SQLReporter.report_all rep step m db).1 = Return tt ∧ k ∈ m.*1).
Proof.
  intros Hsame. rewrite !elem_of_keys.
  destruct (decide ((SQLReporter.report_all rep step m db).1 = Return tt))
    as [Hok|Hraise].
  2: { rewrite (report_all_visible_raises rep rd step m db Hraise).
       split; [by left|]. by intros [?|[? _]]. }
  destruct (report_all_visible_same rep rd step m db Hsame Hok)
    as (rows' & -> & Hrows').
  setoid_rewrite elem_of_app. split.
  - intros (row & [Hrow|Hrow] & Htag); [left; by exists row|right].
    split; [done|].
    apply list_elem_of_lookup in Hrow as [i Hi].
    destruct (Forall2_lookup_l _ _ _ _ _ Hrows' Hi) as ([k' v] & Hkv & [j ->]).
    simpl in Htag. subst k'. apply list_elem_of_fmap. exists (k, v).
    split; [done|]. by eapply list_elem_of_lookup_2.
  - intros [(row & Hrow & Htag)|[_ Hk]]; [exists row; by auto|].
    apply list_elem_of_fmap in Hk as ([k' v] & -> & Hkv).
    apply list_elem_of_lookup in Hkv as [i Hi].
    destruct (Forall2_lookup_r _ _ _ _ _ Hrows' Hi) as (row & Hrow & [j ->]).
    eexists. split; [right; by eapply list_elem_of_lookup_2|done].
Qed.

Lemma report_all_keys_witness :
  "acc" ∈ SQLReader.keys scenario.reader scenario.db1.
Proof.
  apply (report_all_keys scenario.reporter scenario.reader 0
           [("loss", scenario.f0_9); ("acc", scenario.f0_1)] scenario.db0 "acc").
  - reflexivity.
  - right. split; [reflexivity|]. right. left.
Defined.

(** ** The relational reader: keys and series *)

(** [keys()] yields every tag once, and a tag is among the keys exactly when
    [read] returns a series for it that is not empty. *)
Theorem keys_distinct_and_complete rd db :
  NoDup (SQLReader.keys rd db)
  ∧ ∀ k, k ∈ SQLReader.keys rd db ↔ SQLReader.read rd k db ≠ [].
Proof.
  split; [apply NoDup_remove_dups|].
  intros k. rewrite elem_of_keys. split.
  - intros (row & Hrow & Htag) Hnil.
    assert (row_record row ∈ SQLReader.read rd k db) as Hin
      by (apply elem_of_read; by exists row).
    rewrite Hnil in Hin. by apply elem_of_nil in Hin.
  - intros Hne. destruct (SQLReader.read rd k db) as [|record series] eqn:Hr; [done|].
    assert (record ∈ SQLReader.read rd k db) as Hin by (rewrite Hr; left).
    apply elem_of_read in Hin as (row & ? & ? & _). by exists row.
Qed.

(** [read(k)] returns one record per row of the reader's scope with tag [k]:
    rows that share a step are all kept, none replaces another. *)
Theorem read_one_record_per_row rd k db :
  SQLReader.read rd k db ≡ₚ
    (λ row, step_value (Metric.step row) (Metric.value row)) <$>
      filter (λ row, (Metric.experiment_id row, Metric.run_id row) = reader_scope rd
                     ∧ Metric.tag row = k) (metrics db)
  ∧ length (SQLReader.read rd k db) =
      length (filter (λ row, (Metric.experiment_id row, Metric.run_id row) = reader_scope rd
                             ∧ Metric.tag row = k) (metrics db)).
Proof.
  assert (visible_tag rd k db =
            filter (λ row, (Metric.experiment_id row, Metric.run_id row) = reader_scope rd
                           ∧ Metric.tag row = k) (metrics db)) as <-.
  { unfold visible_tag, visible. rewrite list_filter_filter.
    apply list_filter_iff. intros row. unfold in_scope, reader_scope.
    split; [intros [? [-> ->]]; done|intros [[= -> ->] ?]; done]. }
  rewrite read_rows. split.
  - by rewrite order_by_Permutation.
  - by rewrite length_fmap, order_by_Permutation.
Qed.

(** The keys of the mapping [read_all(ks)] returns are the requested keys
    that [keys()] knows; in particular no key is present when none is
    requested. *)
Theorem read_all_dom rd ks db :
  dom (SQLReader.read_all rd ks db) =
    (list_to_set ks ∩ list_to_set (SQLReader.keys rd db) : gset string).
Proof.
  apply set_eq. intros k.
  rewrite elem_of_dom, elem_of_intersection, !elem_of_list_to_set, read_all_lookup.
  rewrite elem_of_keys. case_decide as Hk.
  - destruct (SQLReader.read rd k db) as [|record series] eqn:Hr.
    + split; [by intros [? ?]|]. intros [_ (row & Hrow & Htag)].
      assert (row_record row ∈ SQLReader.read rd k db) as Hin
        by (apply elem_of_read; by exists row).
      rewrite Hr in Hin. by apply elem_of_nil in Hin.
    + split; [|by eauto]. intros _. split; [done|].
      assert (record ∈ SQLReader.read rd k db) as Hin by (rewrite Hr; left).
      apply elem_of_read in Hin as (row & ? & ? & _). by exists row.
  - split; [by intros [? ?]|by intros [? _]].
Qed.

(** Asking [read_all] for the keys [keys()] yields gives every series of the
    scope: each key is mapped to what [read] returns for it. *)
Theorem read_all_of_keys rd db k :
  k ∈ SQLReader.keys rd db →
  SQLReader.read_all rd (SQLReader.keys rd db) db !! k = Some (SQLReader.read rd k db).
Proof.
  intros Hk. rewrite read_all_lookup, decide_True by done.
  apply elem_of_keys in Hk as (row & Hrow & Htag).
  assert (row_record row ∈ SQLReader.read rd k db) as Hin
    by (apply elem_of_read; by exists row).
  destruct (SQLReader.read rd k db); [by apply elem_of_nil in Hin|done].
Qed.

Lemma read_all_of_keys_witness :
  SQLReader.read_all scenario.reader
    (SQLReader.keys scenario.reader scenario.db2) scenario.db2 !! "acc"
  = Some (SQLReader.read scenario.reader "acc" scenario.db2).
Proof.
  apply (read_all_of_keys scenario.reader scenario.db2 "acc").
  vm_compute. right. left.
Defined.

(** [read_all] depends on which keys are requested, not on their order in
    the list nor on how often a key is repeated. *)
Theorem read_all_same_keys rd ks ks' db :
  (∀ k, k ∈ ks ↔ k ∈ ks') →
  SQLReader.read_all rd ks db = SQLReader.read_all rd ks' db.
Proof.
  intros Hks. apply map_eq. intros k. rewrite !read_all_lookup.
  destruct (decide (k ∈ ks)) as [Hk|Hk].
  - by rewrite decide_True by by apply Hks.
  - by rewrite decide_False by by rewrite <-Hks.
Qed.

Lemma read_all_same_keys_witness :
  SQLReader.read_all scenario.reader ["loss"; "acc"; "loss"] scenario.db2 =
    SQLReader.read_all scenario.reader ["acc"; "loss"] scenario.db2.
Proof.
  apply (read_all_same_keys scenario.reader ["loss"; "acc"; "loss"] ["acc"; "loss"]).
  intros k. rewrite !elem_of_cons, !elem_of_nil. tauto.
Defined.

(** ** The relational backend: histories of reports *)

(** Whether the store takes rows at all (its file and its tables are there)
    is not changed by [report_all]. *)
Lemma report_all_usable rep step m db :
  sqlite_file (SQLReporter.report_all rep step m db).2
    && tables (SQLReporter.report_all rep step m db).2
  = sqlite_file db && tables db.
Proof.
  unfold SQLReporter.report_all, add_all_commit, connect.
  destruct m as [|kv m]; [done|]. rewrite fmap_cons.
  destruct (sqlite_file db) eqn:Hfile, (tables db) eqn:Htables; simpl;
    rewrite ?Hfile, ?Htables; try done.
  case_decide; simpl; by rewrite ?Hfile, ?Htables.
Qed.

Lemma report_all_forget_id rep step m db :
  forget_id <$> metrics (SQLReporter.report_all rep step m db).2 =
    (forget_id <$> metrics db)
      ++ (if sqlite_file db && tables db then accepted_rows (rep, step, m) else []).
Proof.
  assert (accepted_rows (rep, step, m) =
            if decide (Forall bindable
                         ((λ kv, SQLReporter._metric rep step kv.1 kv.2) <$> m))
            then (λ row, stored (forget_id row)) <$>
                   ((λ kv, SQLReporter._metric rep step kv.1 kv.2) <$> m)
            else []) as ->.
  { unfold accepted_rows, call_rows. simpl. case_decide; [|done].
    rewrite <-!list_fmap_compose. by apply list_fmap_ext. }
  destruct (decide ((SQLReporter.report_all rep step m db).1 = Return tt))
    as [Hok|Hraise].
  - destruct (add_all_commit_metrics _ _ Hok) as (rows' & Hm & Hrows').
    unfold SQLReporter.report_all. rewrite Hm, fmap_app. f_equal.
    rewrite (committed_rows_forget_id _ _ Hrows').
    apply add_all_commit_outcome in Hok as [Hnil|(-> & -> & Hfit)].
    + rewrite Hnil. simpl. by destruct (sqlite_file db && tables db).
    + simpl. by rewrite decide_True.
  - rewrite (report_all_raises _ _ _ _ Hraise).
    unfold SQLReporter.report_all in Hraise.
    rewrite add_all_commit_outcome in Hraise.
    destruct (sqlite_file db) eqn:Hfile, (tables db) eqn:Htables; simpl;
      try by rewrite app_nil_r.
    rewrite decide_False; [by rewrite app_nil_r|].
    intros Hfit. apply Hraise. by right.
Qed.

(** The rows a history leaves are those that were there and, when the store
    takes rows, the rows of the calls it took, in the order of the calls. *)
Lemma run_reports_forget_id calls db :
  forget_id <$> metrics (run_reports calls db) =
    (forget_id <$> metrics db)
      ++ (if sqlite_file db && tables db then calls ≫= accepted_rows else []).
Proof.
  revert db. induction calls as [|[[rep step] m] calls IH]; intros db; simpl.
  - destruct (sqlite_file db && tables db); by rewrite app_nil_r.
  - rewrite IH, report_all_forget_id, report_all_usable, <-app_assoc.
    by destruct (sqlite_file db && tables db).
Qed.

(** What a reader returns does not look at primary keys. *)
Lemma visible_tag_forget_id {B} (f : Metric.row → B) rd k db :
  (∀ row, f (forget_id row) = f row) →
  f <$> visible_tag rd k db =
    f <$> filter (λ row, Metric.tag row = k
                         ∧ in_scope (Experiment.id (SQLReader._experiment rd))
                             (SQLReader._run_id rd) row)
            (forget_id <$> metrics db).
Proof.
  intros Hf. unfold visible_tag, visible.
  rewrite list_filter_filter, filter_fmap, <-list_fmap_compose.
  symmetry. etrans; [apply list_fmap_ext; intros i row _; apply Hf|].
  reflexivity.
Qed.

Lemma NoDup_fmap_eq {A B} (f : A → B) (l : list A) x y :
  NoDup (f <$> l) → x ∈ l → y ∈ l → f x = f y → x = y.
Proof.
  induction l as [|z l IH]; [by intros _ ?%elem_of_nil|].
  rewrite fmap_cons, NoDup_cons.
  intros [Hz Hnd] [->|Hx]%elem_of_cons [->|Hy]%elem_of_cons Hxy; [done|..|by apply IH].
  - destruct Hz. rewrite Hxy. by apply list_elem_of_fmap_2.
  - destruct Hz. rewrite <-Hxy. by apply list_elem_of_fmap_2.
Qed.

(** The order in which reports reach the store does not change which records
    a series is made of; when no two records of the series share a step, it
    does not change the series at all. *)
Theorem read_independent_of_report_order rd k calls1 calls2 db :
  calls1 ≡ₚ calls2 →
  SQLReader.read rd k (run_reports calls1 db)
    ≡ₚ SQLReader.read rd k (run_reports calls2 db)
  ∧ (NoDup (step_of <$> SQLReader.read rd k (run_reports calls1 db)) →
     SQLReader.read rd k (run_reports calls1 db) =
       SQLReader.read rd k (run_reports calls2 db)).
Proof.
  intros Hcalls.
  assert (SQLReader.read rd k (run_reports calls1 db)
            ≡ₚ SQLReader.read rd k (run_reports calls2 db)) as Hperm.
  { rewrite !read_rows, !order_by_Permutation.
    rewrite !(visible_tag_forget_id row_record) by done.
    rewrite !run_reports_forget_id.
    destruct (sqlite_file db && tables db); [|done]. by rewrite Hcalls. }
  split; [done|]. intros Hnd.
  apply (StronglySorted_unique_strong step_le);
    [|apply read_step_ascending..|done].
  intros x1 x2 Hx1 Hx2 H12 H21. rewrite <-Hperm in Hx2.
  apply (NoDup_fmap_eq step_of _ _ _ Hnd Hx1 Hx2).
  unfold step_le in *.
  destruct (step_of x1), (step_of x2); try done. f_equal. lia.
Qed.

Lemma read_independent_of_report_order_witness :
  SQLReader.read scenario.reader "loss"
    (run_reports [(scenario.reporter, 5, [("loss", scenario.f0_9)]);
                  (scenario.reporter, 2, [("loss", scenario.f0_5)])] scenario.db0)
  = SQLReader.read scenario.reader "loss"
      (run_reports [(scenario.reporter, 2, [("loss", scenario.f0_5)]);
                    (scenario.reporter, 5, [("loss", scenario.f0_9)])] scenario.db0).
Proof.
  apply (read_independent_of_report_order scenario.reader "loss").
  - apply perm_swap.
  - vm_compute. repeat constructor; intros Hin;
      repeat (apply elem_of_cons in Hin as [Hin|Hin]; [discriminate|]);
      by apply elem_of_nil in Hin.
Defined.

(** A reporter that could be constructed can hand out its reader after any
    history of reports; the reader has the reporter's experiment and run.
    When the tables of the store are there and the ids of the reporter fit in
    64 bits, the reader reads back, at its step, every value the reporter
    wrote in that history at a step that fits, as the store keeps it (NaN
    read as [None], a negative zero as zero). *)
Theorem reporter_reader_reads_back engine exp run db rep calls :
  SQLReporter.__init__ engine exp run db = Return rep →
  ∃ rd, SQLReporter.reader rep (run_reports calls db) = Return rd
        ∧ reader_scope rd = (Experiment.id exp, run)
        ∧ (tables db = true → int64 (Experiment.id exp) → int64 run →
           ∀ step m k v,
             (rep, step, m) ∈ calls → (k, v) ∈ m → int64 step →
             step_value step (bind_real (Some v))
               ∈ SQLReader.read rd k (run_reports calls db)).
Proof.
  unfold SQLReporter.__init__, SQLReporter.reader, SQLReader.__init__,
    sqlite_file_exists.
  destruct (sqlite_file db) eqn:Hfile; simpl; [|done]. intros [= <-]. simpl.
  destruct (run_reports_flags calls db Hfile) as [-> _]. simpl.
  eexists. split; [done|]. split; [done|].
  intros Htables Hexp Hrun step m k v Hcall Hkv Hstep.
  set (rep := SQLReporter.Build engine exp run).
  set (rd := SQLReader.Build engine exp run).
  assert (stored (SQLReporter._metric rep step k v)
            ∈ forget_id <$> metrics (run_reports calls db)) as Hin.
  { rewrite run_reports_forget_id, Hfile, Htables. simpl.
    apply elem_of_app. right.
    apply list_elem_of_bind. exists (rep, step, m). split; [|done].
    unfold accepted_rows, call_rows. simpl. rewrite decide_True.
    - apply list_elem_of_fmap. eexists. split; [done|].
      apply list_elem_of_fmap. by exists (k, v).
    - apply report_all_bindable. by right. }
  apply list_elem_of_fmap in Hin as (row & Hrow & Hin).
  apply elem_of_read. exists row. split; [|split].
  - apply elem_of_visible. split; [done|].
    change (Metric.experiment_id row, Metric.run_id row) with
      (Metric.experiment_id (forget_id row), Metric.run_id (forget_id row)).
    by rewrite <-Hrow.
  - change (Metric.tag row) with (Metric.tag (forget_id row)). by rewrite <-Hrow.
  - change (row_record row) with (row_record (forget_id row)). by rewrite <-Hrow.
Qed.

Lemma reporter_reader_reads_back_witness :
  ∃ rd, SQLReporter.reader scenario.reporter scenario.db2 = Return rd
        ∧ step_value 1 (Some scenario.f0_4) ∈ SQLReader.read rd "acc" scenario.db2.
Proof.
  destruct (reporter_reader_reads_back scenario.engine scenario.exp 1 scenario.db0
              scenario.reporter
              [(scenario.reporter, 0, [("loss", scenario.f0_9); ("acc", scenario.f0_1)]);
               (scenario.reporter, 1, [("loss", scenario.f0_5); ("acc", scenario.f0_4)])]
              eq_refl) as (rd & Hrd & _ & Hread).
  exists rd. split; [exact Hrd|].
  apply (Hread eq_refl ltac:(unfold int64; simpl; lia) ltac:(unfold int64; lia)
           1 [("loss", scenario.f0_5); ("acc", scenario.f0_4)] "acc" scenario.f0_4).
  - right. left.
  - right. left.
  - unfold int64. lia.
Defined.

(** ** The memory reporter *)

Lemma batch_values_cons {V} k k' (v : V) m :
  batch_values k ((k', v) :: m) =
    if decide (k' = k) then v :: batch_values k m else batch_values k m.
Proof. unfold batch_values. rewrite filter_cons. simpl. by case_decide. Qed.

Lemma batch_values_nil {V} k (m : list (string * V)) :
  batch_values k m = [] ↔ k ∉ m.*1.
Proof.
  induction m as [|[k' v] m IH].
  - split; [by intros _ ?%elem_of_nil|done].
  - rewrite batch_values_cons, fmap_cons, not_elem_of_cons. simpl.
    case_decide; [|rewrite IH; by intuition]. split; [done|]. by intros [? _].
Qed.

(** The dict a reporter makes for itself is empty: every key it will hold
    gets a list object of its own. *)
Lemma memory_init_well_formed : well_formed (MemoryReporter.__init__ None).
Proof. intros k address. simpl. by rewrite lookup_empty. Qed.

Lemma memory_init_unshared : unshared (MemoryReporter.__init__ None).
Proof. intros k1 k2 address. simpl. by rewrite lookup_empty. Qed.

Lemma setdefault_append_well_formed k v _m :
  well_formed _m → well_formed (MemoryReporter.setdefault_append k v _m).
Proof.
  intros Hwf k' address. unfold MemoryReporter.setdefault_append.
  destruct (refs _m !! k) eqn:Hk; simpl.
  - rewrite length_alter. apply Hwf.
  - rewrite length_app. simpl.
    intros [[_ <-]|[_ Hk']]%lookup_insert_Some; [lia|]. apply Hwf in Hk'. lia.
Qed.

Lemma setdefault_append_unshared k v _m :
  well_formed _m → unshared _m →
  unshared (MemoryReporter.setdefault_append k v _m).
Proof.
  intros Hwf Hun k1 k2 address. unfold MemoryReporter.setdefault_append.
  destruct (refs _m !! k) eqn:Hk; simpl; [apply Hun|].
  rewrite !lookup_insert_Some.
  intros [[<- <-]|[_ H1]] [[<- Heq]|[_ H2]]; try done.
  - apply Hwf in H2. lia.
  - subst address. apply Hwf in H1. lia.
  - by eapply Hun.
Qed.

Lemma setdefault_append_refs k v _m k' :
  is_Some (refs (MemoryReporter.setdefault_append k v _m) !! k')
  ↔ k' = k ∨ is_Some (refs _m !! k').
Proof.
  unfold MemoryReporter.setdefault_append.
  destruct (refs _m !! k) eqn:Hk; simpl.
  - split; [by right|]. intros [->|?]; [by rewrite Hk|done].
  - rewrite lookup_insert_is_Some. split.
    + intros [->|[_ ?]]; by auto.
    + destruct (decide (k = k')) as [->|?]; [by left|].
      intros [->|?]; [done|by right].
Qed.

(** Appending under a key extends the list object the key refers to. *)
Lemma setdefault_append_same k v _m :
  well_formed _m →
  series (MemoryReporter.setdefault_append k v _m) k =
    Some (default [] (series _m k) ++ [v]).
Proof.
  intros Hwf. unfold series, MemoryReporter.setdefault_append.
  destruct (refs _m !! k) as [address|] eqn:Hk; simpl.
  - rewrite Hk. simpl. apply Hwf in Hk. apply lookup_lt_is_Some in Hk as [l Hl].
    by rewrite list_lookup_alter_eq, Hl.
  - rewrite lookup_insert_eq. simpl. by rewrite lookup_app_r, Nat.sub_diag.
Qed.

(** It leaves the list object of another key alone, when the two keys do not
    refer to the same one. *)
Lemma setdefault_append_other k v _m k' :
  well_formed _m → unshared _m → k' ≠ k →
  series (MemoryReporter.setdefault_append k v _m) k' = series _m k'.
Proof.
  intros Hwf Hun Hne. unfold series, MemoryReporter.setdefault_append.
  destruct (refs _m !! k) as [address|] eqn:Hk; simpl.
  - destruct (refs _m !! k') as [address'|] eqn:Hk'; simpl; [|done].
    rewrite list_lookup_alter_ne; [done|].
    intros ->. apply Hne. by eapply Hun.
  - rewrite lookup_insert_ne by done.
    destruct (refs _m !! k') as [address'|] eqn:Hk'; simpl; [|done].
    apply lookup_app_l. by apply Hwf in Hk'.
Qed.

Lemma memory_report_all_cons step k v m _m :
  MemoryReporter.report_all step ((k, v) :: m) _m =
    MemoryReporter.report_all step m (MemoryReporter.setdefault_append k v _m).
Proof. reflexivity. Qed.

Lemma memory_report_all_well_formed step m _m :
  well_formed _m → well_formed (MemoryReporter.report_all step m _m).
Proof.
  revert _m. induction m as [|[k v] m IH]; intros _m Hwf; [done|].
  rewrite memory_report_all_cons. by apply IH, setdefault_append_well_formed.
Qed.

Lemma memory_report_all_unshared step m _m :
  well_formed _m → unshared _m → unshared (MemoryReporter.report_all step m _m).
Proof.
  revert _m. induction m as [|[k v] m IH]; intros _m Hwf Hun; [done|].
  rewrite memory_report_all_cons.
  by apply IH; [apply setdefault_append_well_formed|apply setdefault_append_unshared].
Qed.

Lemma memory_report_all_refs step m _m k :
  is_Some (refs (MemoryReporter.report_all step m _m) !! k)
  ↔ is_Some (refs _m !! k) ∨ k ∈ m.*1.
Proof.
  revert _m. induction m as [|[k' v] m IH]; intros _m.
  - simpl. split; [by left|]. by intros [?|?%elem_of_nil].
  - rewrite memory_report_all_cons, IH, setdefault_append_refs, fmap_cons,
      elem_of_cons. simpl. tauto.
Qed.

Lemma memory_report_all_lookup step m _m k :
  well_formed _m → unshared _m →
  series (MemoryReporter.report_all step m _m) k =
    match batch_values k m with
    | [] => series _m k
    | vs => Some (default [] (series _m k) ++ vs)
    end.
Proof.
  revert _m. induction m as [|[k' v] m IH]; intros _m Hwf Hun; [done|].
  rewrite memory_report_all_cons, IH, batch_values_cons
    by (by apply setdefault_append_well_formed || by apply setdefault_append_unshared).
  destruct (decide (k' = k)) as [->|Hne].
  - rewrite setdefault_append_same by done. simpl.
    destruct (batch_values k m); [done|]. by rewrite <-app_assoc.
  - by rewrite setdefault_append_other.
Qed.

(** In a store where every key has a list of its own (as in the dict a
    reporter makes for itself, and in any store reported to from there), a
    batch appends, to the series of each of its keys, the values it holds for
    that key, in the order of the batch, after what the series held; the
    series of the other keys are not touched.  The keys of the store are those
    it had and those of the batch, and every key still has a list of its
    own. *)
Theorem memory_report_all_appends step m _m k :
  well_formed _m → unshared _m →
  series (MemoryReporter.report_all step m _m) k =
    (if decide (k ∈ m.*1) then Some (default [] (series _m k) ++ batch_values k m)
     else series _m k)
  ∧ dom (refs (MemoryReporter.report_all step m _m)) =
      dom (refs _m) ∪ list_to_set m.*1
  ∧ well_formed (MemoryReporter.report_all step m _m)
  ∧ unshared (MemoryReporter.report_all step m _m).
Proof.
  intros Hwf Hun. split; [|split; [|split]].
  - rewrite memory_report_all_lookup by done.
    destruct (batch_values k m) as [|v vs] eqn:Hvs.
    + apply batch_values_nil in Hvs. by rewrite decide_False.
    + rewrite decide_True; [done|].
      destruct (decide (k ∈ m.*1)) as [|Hk]; [done|].
      apply batch_values_nil in Hk. congruence.
  - apply set_eq. intros k'.
    by rewrite elem_of_union, elem_of_list_to_set, !elem_of_dom,
      memory_report_all_refs.
  - by apply memory_report_all_well_formed.
  - by apply memory_report_all_unshared.
Qed.

Lemma memory_report_all_appends_witness :
  series (MemoryReporter.report_all 0
            [("loss", t.PyInt 1); ("acc", t.PyInt 2); ("loss", t.PyInt 3)]
            (MemoryReporter.__init__ None)) "loss"
  = Some [t.PyInt 1; t.PyInt 3].
Proof.
  destruct (memory_report_all_appends 0
              [("loss", t.PyInt 1); ("acc", t.PyInt 2); ("loss", t.PyInt 3)]
              (MemoryReporter.__init__ None) "loss"
              memory_init_well_formed memory_init_unshared) as [Hseries _].
  rewrite Hseries. reflexivity.
Defined.

(** When two keys refer to one list object, as in [dict.fromkeys(ks, [])],
    a value reported under one of them shows under both. *)
Example memory_shared_list :
  series (MemoryReporter.report_all 0 [("a", t.PyInt 1)] scenario.shared) "b"
    = Some [t.PyInt 1]
  ∧ ¬ unshared scenario.shared.
Proof.
  split; [reflexivity|].
  intros Hun. by specialize (Hun "a" "b" 0%nat eq_refl eq_refl).
Qed.

(** In a store where every key has a list of its own, two batches that share
    no key can be reported in either order: every key holds the same series
    afterwards. *)
Theorem memory_report_all_commute step1 step2 m1 m2 _m k :
  well_formed _m → unshared _m →
  (∀ k, k ∈ m1.*1 → k ∉ m2.*1) →
  series (MemoryReporter.report_all step1 m1
            (MemoryReporter.report_all step2 m2 _m)) k =
    series (MemoryReporter.report_all step2 m2
              (MemoryReporter.report_all step1 m1 _m)) k.
Proof.
  intros Hwf Hun Hdisjoint.
  rewrite !memory_report_all_lookup
    by (by apply memory_report_all_well_formed
        || by apply memory_report_all_unshared || done).
  destruct (batch_values k m1) as [|v1 vs1] eqn:H1;
    destruct (batch_values k m2) as [|v2 vs2] eqn:H2; try done.
  destruct (Hdisjoint k).
  - destruct (decide (k ∈ m1.*1)) as [|Hk]; [done|].
    apply batch_values_nil in Hk. congruence.
  - destruct (decide (k ∈ m2.*1)) as [|Hk]; [done|].
    apply batch_values_nil in Hk. congruence.
Qed.

Lemma memory_report_all_commute_witness :
  series (MemoryReporter.report_all 1 [("loss", t.PyInt 1)]
            (MemoryReporter.report_all 2 [("acc", t.PyInt 2)]
               (MemoryReporter.__init__ None))) "loss" =
  series (MemoryReporter.report_all 2 [("acc", t.PyInt 2)]
            (MemoryReporter.report_all 1 [("loss", t.PyInt 1)]
               (MemoryReporter.__init__ None))) "loss".
Proof.
  apply (memory_report_all_commute 1 2 [("loss", t.PyInt 1)] [("acc", t.PyInt 2)]
           (MemoryReporter.__init__ None) "loss"
           memory_init_well_formed memory_init_unshared).
  intros k ->%list_elem_of_singleton [=]%list_elem_of_singleton.
Defined.

Lemma memory_reports_cons k step v calls _m :
  memory_reports k ((step, v) :: calls) _m =
    memory_reports k calls (MemoryReporter.setdefault_append k v _m).
Proof. reflexivity. Qed.

Lemma memory_reports_lookup k calls _m :
  well_formed _m →
  series (memory_reports k calls _m) k =
    match calls with
    | [] => series _m k
    | _ => Some (default [] (series _m k) ++ (snd <$> calls))
    end.
Proof.
  revert _m. induction calls as [|[step v] calls IH]; intros _m Hwf; [done|].
  rewrite memory_reports_cons, IH by by apply setdefault_append_well_formed.
  rewrite setdefault_append_same by done. simpl.
  destruct calls; [done|]. by rewrite <-app_assoc.
Qed.

(** The series of a key is the list of the values reported for it, in the
    order of the reports: the steps of the reports play no part, so a missing
    or a repeated step leaves no trace.  After [clear] the series starts
    again from nothing.  In a store where every key has a list of its own,
    the other keys are not touched. *)
Theorem memory_series_is_report_order k calls _m :
  well_formed _m →
  default [] (series (memory_reports k calls _m) k) =
    default [] (series _m k) ++ (snd <$> calls)
  ∧ default [] (series (memory_reports k calls (MemoryReporter.clear _m)) k) =
      snd <$> calls
  ∧ (unshared _m →
     ∀ k', k' ≠ k → series (memory_reports k calls _m) k' = series _m k').
Proof.
  intros Hwf. split; [|split].
  - rewrite memory_reports_lookup by done. destruct calls; [|done].
    simpl. by rewrite app_nil_r.
  - rewrite memory_reports_lookup.
    + unfold MemoryReporter.clear, series. simpl. rewrite lookup_empty.
      by destruct calls.
    + intros k' address. simpl. by rewrite lookup_empty.
  - intros Hun k' Hne. revert _m Hwf Hun.
    induction calls as [|[step v] calls IH]; intros _m Hwf Hun; [done|].
    rewrite memory_reports_cons, IH
      by (by apply setdefault_append_well_formed
          || by apply setdefault_append_unshared).
    by apply setdefault_append_other.
Qed.

(** Steps 7, 7 and 3 give the series of the three values, in that order. *)
Example memory_compacts_steps :
  series (memory_reports "loss" [(7, t.PyInt 1); (7, t.PyInt 2); (3, t.PyInt 3)]
            (MemoryReporter.__init__ None)) "loss"
  = Some [t.PyInt 1; t.PyInt 2; t.PyInt 3].
Proof. reflexivity. Qed.

Lemma memory_series_is_report_order_witness :
  default []
    (series (memory_reports "loss" [(7, t.PyInt 1); (7, t.PyInt 2); (3, t.PyInt 3)]
               (MemoryReporter.__init__ None)) "loss")
  = [t.PyInt 1; t.PyInt 2; t.PyInt 3].
Proof.
  destruct (memory_series_is_report_order "loss"
              [(7, t.PyInt 1); (7, t.PyInt 2); (3, t.PyInt 3)]
              (MemoryReporter.__init__ None) memory_init_well_formed)
    as (Hseries & _).
  rewrite Hseries. reflexivity.
Defined.

(** ** The lambda reporter: batches through [report] *)

(** A lambda reporter that was given [report] only answers
    [report_all(step, m)] by calling that function once per entry of [m], in
    the order of [m], each call starting from the state the one before left;
    the first call that raises ends the batch with its error. *)
Theorem lambda_reporter_report_all_delegates {S : Type}
    (g : Z → t.MetricKey → t.Metric → S → result S)
    (close : option (S → result S)) (depth : nat) step m (s : S) :
  (2 ≤ depth)%nat →
  ∃ r, LambdaReporter.__init__ (Some g) None close = Return r
       ∧ LambdaReporter.report_all depth r step m s =
           for_each (λ kv, g step kv.1 kv.2) m s
       ∧ ∀ m1 kv m2 s1 e,
           m = m1 ++ kv :: m2 →
           for_each (λ kv, g step kv.1 kv.2) m1 s = Return s1 →
           g step kv.1 kv.2 s1 = Raise e →
           LambdaReporter.report_all depth r step m s = Raise e.
Proof.
  intros Hdepth. eexists. split; [done|].
  assert (LambdaReporter.report_all depth
            (LambdaReporter.Build (Some g) None close) step m s =
          for_each (λ kv, g step kv.1 kv.2) m s) as Heq.
  { destruct depth as [|[|depth]]; [lia..|]. reflexivity. }
  split; [exact Heq|].
  intros m1 kv m2 s1 e -> Hm1 Hkv. rewrite Heq. clear Heq.
  revert s Hm1. induction m1 as [|kv1 m1 IH]; intros s; simpl.
  - intros [= ->]. by rewrite Hkv.
  - destruct (g step kv1.1 kv1.2 s) as [s'|e']; [|done]. cbn. apply IH.
Qed.

Lemma lambda_reporter_report_all_delegates_witness :
  LambdaReporter.report_all 2 (LambdaReporter.Build (Some log_one) None None)
    3 [("loss", t.PyInt 1); ("bad", t.PyInt 2); ("acc", t.PyInt 3)] []
  = Raise (ValueError "bad key").
Proof.
  assert (2 ≤ 2)%nat as Hdepth by lia.
  destruct (lambda_reporter_report_all_delegates log_one None 2 3
              [("loss", t.PyInt 1); ("bad", t.PyInt 2); ("acc", t.PyInt 3)] []
              Hdepth) as (r & [= <-] & _ & Hstop).
  apply (Hstop [("loss", t.PyInt 1)] ("bad", t.PyInt 2) [("acc", t.PyInt 3)]
           [(3, "loss", t.PyInt 1)]); reflexivity.
Defined.

(** ** The file reader: lines and errors *)

Lemma comprehension_Return {A B} (f : A → result B) l ys :
  comprehension f l = Return ys ↔ Forall2 (λ x y, f x = Return y) l ys.
Proof.
  revert ys. induction l as [|x l IH]; intros ys; simpl.
  - split; [intros [= <-]; constructor|by intros ->%Forall2_nil_inv_l].
  - destruct (f x) as [y|e] eqn:Hx; cbn.
    + destruct (comprehension f l) as [ys'|e]; cbn.
      * split.
        -- intros [= <-]. constructor; [done|]. by apply IH.
        -- intros (y' & ys'' & Hy & Hys & ->)%Forall2_cons_inv_l.
           apply IH in Hys. congruence.
      * split; [done|].
        intros (y' & ys'' & _ & Hys & _)%Forall2_cons_inv_l.
        by apply IH in Hys.
    + split; [done|].
      intros (y' & ys'' & Hy & _)%Forall2_cons_inv_l. congruence.
Qed.

(** Reading a file that is there gives all its records or an error: the
    result is a list exactly when every line decodes, and it then holds the
    decoded lines in order; an error is the error of one of the lines, and a
    line that does not decode makes the whole read fail. *)
Theorem fs_read_all_or_nothing jsonl_path decode json_loads
    (fs : gmap string (list byte)) k content :
  fs !! jsonl_path k = Some content →
  (∀ records,
     FSReader.read jsonl_path decode json_loads fs k = Return records ↔
     Forall2 (λ line record, FSReader.loads_line decode json_loads line = Return record)
       (splitlines content) records)
  ∧ (∀ e,
       FSReader.read jsonl_path decode json_loads fs k = Raise e →
       ∃ line, line ∈ splitlines content
               ∧ FSReader.loads_line decode json_loads line = Raise e)
  ∧ (∀ line e,
       line ∈ splitlines content →
       FSReader.loads_line decode json_loads line = Raise e →
       ∃ e', FSReader.read jsonl_path decode json_loads fs k = Raise e').
Proof.
  intros Hfs. rewrite (fs_read_present _ _ _ _ _ _ Hfs).
  split; [|split].
  - intros records. apply comprehension_Return.
  - intros e. apply comprehension_Raise.
  - intros line e Hin Hline.
    destruct (comprehension _ (splitlines content)) as [records|e'] eqn:Hc;
      [|by eexists].
    apply comprehension_Return in Hc.
    apply list_elem_of_lookup in Hin as [i Hi].
    destruct (Forall2_lookup_l _ _ _ _ _ Hc Hi) as (record & _ & Hrec). congruence.
Qed.

Lemma fs_read_all_or_nothing_witness :
  ∃ e, FSReader.read scenario.jsonl_path scenario.decode scenario.json_loads
         (<["loss.jsonl" := [x31; x0a; x33; x0a; x32; x0a]]> scenario.files) "loss"
       = Raise e.
Proof.
  destruct (fs_read_all_or_nothing scenario.jsonl_path scenario.decode
              scenario.json_loads
              (<["loss.jsonl" := [x31; x0a; x33; x0a; x32; x0a]]> scenario.files)
              "loss" [x31; x0a; x33; x0a; x32; x0a]) as (_ & _ & Hfail).
  - reflexivity.
  - apply (Hfail [x33] JSONDecodeError); [|reflexivity].
    vm_compute. right. left.
Defined.

(** *** Line terminators *)

Lemma splitlines_line_CRLF l rest :
  terminator_free l → splitlines (l ++ CR :: LF :: rest) = l :: splitlines rest.
Proof.
  induction l as [|b l IH]; intros [HLF HCR]; simpl.
  - done.
  - apply not_elem_of_cons in HLF as [? ?], HCR as [? ?].
    rewrite !decide_False by done. by rewrite IH.
Qed.

Lemma splitlines_line_CR l rest :
  terminator_free l → head rest ≠ Some LF →
  splitlines (l ++ CR :: rest) = l :: splitlines rest.
Proof.
  induction l as [|b l IH]; intros [HLF HCR] Hrest; simpl.
  - destruct rest as [|c rest]; [done|].
    rewrite decide_False; [done|]. intros ->. by destruct Hrest.
  - apply not_elem_of_cons in HLF as [? ?], HCR as [? ?].
    rewrite !decide_False by done. by rewrite IH.
Qed.

Lemma splitlines_unterminated l :
  terminator_free l → l ≠ [] → splitlines l = [l].
Proof.
  induction l as [|b l IH]; intros [HLF HCR] Hne; [done|]. simpl.
  apply not_elem_of_cons in HLF as [? ?], HCR as [? ?].
  rewrite !decide_False by done.
  destruct l as [|c l]; [done|]. by rewrite IH.
Qed.

Lemma join_lines_cons terminator l lines :
  join_lines terminator (l :: lines) = l ++ terminator ++ join_lines terminator lines.
Proof. unfold join_lines. simpl. by rewrite <-app_assoc. Qed.

Lemma head_join_lines_CR lines :
  Forall terminator_free lines → head (join_lines [CR] lines) ≠ Some LF.
Proof.
  destruct 1 as [|l lines [HLF _] _]; [done|].
  rewrite join_lines_cons. destruct l as [|b l]; [done|]. simpl.
  intros [= ->]. apply HLF. left.
Qed.

Lemma splitlines_join_lines terminator lines rest :
  terminator ∈ [[LF]; [CR; LF]] →
  Forall terminator_free lines →
  splitlines (join_lines terminator lines ++ rest) = lines ++ splitlines rest.
Proof.
  intros Hterm. induction 1 as [|l lines Hl _ IH]; [done|].
  rewrite join_lines_cons, <-!app_assoc.
  apply elem_of_cons in Hterm as [->|Hterm].
  { simpl. destruct Hl. by rewrite splitlines_line, IH. }
  apply list_elem_of_singleton in Hterm as ->.
  simpl. by rewrite splitlines_line_CRLF, IH.
Qed.

Lemma splitlines_join_lines_CR lines :
  Forall terminator_free lines → splitlines (join_lines [CR] lines) = lines.
Proof.
  induction 1 as [|l lines Hl Hlines IH]; [done|].
  rewrite join_lines_cons. simpl.
  rewrite splitlines_line_CR, IH; [done..|]. by apply head_join_lines_CR.
Qed.

(** The three line terminators read alike: a file whose lines each end with
    LF, each with CR, or each with CR LF gives the records of these lines. *)
Theorem fs_read_any_terminator jsonl_path decode json_loads
    (fs : gmap string (list byte)) k terminator lines :
  terminator ∈ [[LF]; [CR]; [CR; LF]] →
  Forall terminator_free lines →
  fs !! jsonl_path k = Some (join_lines terminator lines) →
  FSReader.read jsonl_path decode json_loads fs k =
    comprehension (FSReader.loads_line decode json_loads) lines.
Proof.
  intros Hterm Hlines Hfs. rewrite (fs_read_present _ _ _ _ _ _ Hfs). f_equal.
  apply elem_of_cons in Hterm as [->|Hterm];
    [|apply elem_of_cons in Hterm as [->|Hterm];
      [|apply list_elem_of_singleton in Hterm as ->]].
  - rewrite <-(app_nil_r (join_lines _ _)), splitlines_join_lines; [|left|done].
    by rewrite app_nil_r.
  - by apply splitlines_join_lines_CR.
  - rewrite <-(app_nil_r (join_lines _ _)), splitlines_join_lines; [|right; left|done].
    by rewrite app_nil_r.
Qed.

Lemma fs_read_any_terminator_witness :
  FSReader.read scenario.jsonl_path scenario.decode scenario.json_loads
    (<["loss.jsonl" := [x31; x0d; x0a; x32; x0d; x0a]]> scenario.files) "loss"
  = Return [t.PyInt 1; t.PyInt 2].
Proof.
  apply (fs_read_any_terminator scenario.jsonl_path scenario.decode
           scenario.json_loads _ "loss" [CR; LF] [[x31]; [x32]]).
  - right. right. left.
  - repeat constructor; intros Hin;
      repeat (apply elem_of_cons in Hin as [Hin|Hin]; [discriminate|]);
      by apply elem_of_nil in Hin.
  - reflexivity.
Defined.

(** A last line that has no terminator is read like the others. *)
Theorem fs_read_unterminated_last_line jsonl_path decode json_loads
    (fs : gmap string (list byte)) k lines last :
  Forall terminator_free lines →
  terminator_free last → last ≠ [] →
  fs !! jsonl_path k = Some (join_lines [LF] lines ++ last) →
  FSReader.read jsonl_path decode json_loads fs k =
    comprehension (FSReader.loads_line decode json_loads) (lines ++ [last]).
Proof.
  intros Hlines Hlast Hne Hfs. rewrite (fs_read_present _ _ _ _ _ _ Hfs).
  rewrite splitlines_join_lines; [|left|done].
  by rewrite splitlines_unterminated.
Qed.

Lemma fs_read_unterminated_last_line_witness :
  FSReader.read scenario.jsonl_path scenario.decode scenario.json_loads
    (<["loss.jsonl" := [x31; x0a; x32]]> scenario.files) "loss"
  = Return [t.PyInt 1; t.PyInt 2].
Proof.
  apply (fs_read_unterminated_last_line scenario.jsonl_path scenario.decode
           scenario.json_loads _ "loss" [[x31]] [x32]).
  - repeat constructor; intros Hin;
      repeat (apply elem_of_cons in Hin as [Hin|Hin]; [discriminate|]);
      by apply elem_of_nil in Hin.
  - split; intros Hin;
      repeat (apply elem_of_cons in Hin as [Hin|Hin]; [discriminate|]);
      by apply elem_of_nil in Hin.
  - discriminate.
  - reflexivity.
Defined.

Lemma splitlines_terminator_free bs : Forall terminator_free (splitlines bs).
Proof.
  assert (terminator_free []) as Hnil by (split; by intros ?%elem_of_nil).
  induction bs as [|b rest IH]; simpl; [constructor|].
  destruct (decide (b = LF)) as [->|HLF]; [by constructor|].
  destruct (decide (b = CR)) as [->|HCR].
  - destruct rest as [|c rest]; [constructor; [done|constructor]|].
    destruct (decide (c = LF)) as [->|Hc]; [|by constructor].
    simpl in IH. apply Forall_cons in IH as [_ IH]. by constructor.
  - destruct (splitlines rest) as [|line lines].
    + repeat constructor; by intros [?|?%elem_of_nil]%elem_of_cons.
    + apply Forall_cons in IH as [[? ?] ?]. constructor; [|done].
      split; by intros [?|?]%elem_of_cons.
Qed.

(** No line handed to the decoder holds a terminator, and rewriting a file
    with one LF after each of its lines does not change what is read. *)
Theorem fs_read_normalised jsonl_path decode json_loads
    (fs fs' : gmap string (list byte)) k content :
  fs !! jsonl_path k = Some content →
  fs' !! jsonl_path k = Some (join_lines [LF] (splitlines content)) →
  Forall terminator_free (splitlines content)
  ∧ FSReader.read jsonl_path decode json_loads fs' k =
      FSReader.read jsonl_path decode json_loads fs k.
Proof.
  intros Hfs Hfs'. split; [apply splitlines_terminator_free|].
  rewrite (fs_read_present _ _ _ _ _ _ Hfs), (fs_read_present _ _ _ _ _ _ Hfs').
  rewrite <-(app_nil_r (join_lines _ _)), splitlines_join_lines;
    [|left|apply splitlines_terminator_free].
  by rewrite app_nil_r.
Qed.

Lemma fs_read_normalised_witness :
  FSReader.read scenario.jsonl_path scenario.decode scenario.json_loads
    scenario.files "loss"
  = FSReader.read scenario.jsonl_path scenario.decode scenario.json_loads
      (<["loss.jsonl" := [x31; x0d; x32]]> scenario.files) "loss".
Proof.
  apply (fs_read_normalised scenario.jsonl_path scenario.decode
           scenario.json_loads
           (<["loss.jsonl" := [x31; x0d; x32]]> scenario.files)
           scenario.files "loss" [x31; x0d; x32]); reflexivity.
Defined.

(** ** The relational backend: reports of other scopes *)

Lemma insert_sorted_fmap {A B} (f : A → B) (R1 : relation A) (R2 : relation B)
    `{!RelDecision R1, !RelDecision R2} x l :
  (∀ x y, R1 x y ↔ R2 (f x) (f y)) →
  insert_sorted R2 (f x) (f <$> l) = f <$> insert_sorted R1 x l.
Proof.
  intros HR. induction l as [|y l IH]; [done|].
  rewrite fmap_cons. cbn [insert_sorted].
  destruct (decide (R1 x y)) as [Hxy|Hxy].
  - rewrite decide_True by by apply HR. done.
  - rewrite decide_False by by rewrite <-HR. by rewrite fmap_cons, IH.
Qed.

Lemma order_by_fmap {A B} (f : A → B) (R1 : relation A) (R2 : relation B)
    `{!RelDecision R1, !RelDecision R2} l :
  (∀ x y, R1 x y ↔ R2 (f x) (f y)) →
  order_by R2 (f <$> l) = f <$> order_by R1 l.
Proof.
  intros HR. induction l as [|x l IH]; [done|].
  rewrite fmap_cons. cbn [order_by foldr]. fold (order_by R2 (f <$> l)).
  fold (order_by R1 l). by rewrite IH, (insert_sorted_fmap f R1 R2).
Qed.

(** A series is a function of the rows without their primary keys. *)
Lemma read_forget_id rd k db :
  SQLReader.read rd k db =
    row_record <$>
      order_by by_step
        (filter (λ row, Metric.tag row = k
                        ∧ in_scope (Experiment.id (SQLReader._experiment rd))
                            (SQLReader._run_id rd) row)
           (forget_id <$> metrics db)).
Proof.
  rewrite read_rows. unfold visible_tag, visible.
  rewrite list_filter_filter, filter_fmap.
  rewrite (order_by_fmap forget_id by_step by_step) by done.
  rewrite <-list_fmap_compose. apply list_fmap_ext. by intros i [] _.
Qed.

Lemma accepted_rows_scope rd call row :
  row ∈ accepted_rows call →
  in_scope (Experiment.id (SQLReader._experiment rd)) (SQLReader._run_id rd) row
  ↔ reporter_scope call.1.1 = reader_scope rd.
Proof.
  destruct call as [[rep step] m]. unfold accepted_rows, call_rows. simpl.
  case_decide; [|by intros ?%elem_of_nil].
  rewrite <-list_fmap_compose. intros ([k v] & -> & _)%list_elem_of_fmap.
  unfold in_scope, reporter_scope, reader_scope. simpl.
  split; [intros [-> ->]; done|intros [= -> ->]; done].
Qed.

Lemma filter_accepted_rows rd k calls :
  filter (λ row, Metric.tag row = k
                 ∧ in_scope (Experiment.id (SQLReader._experiment rd))
                     (SQLReader._run_id rd) row)
    (calls ≫= accepted_rows) =
  filter (λ row, Metric.tag row = k
                 ∧ in_scope (Experiment.id (SQLReader._experiment rd))
                     (SQLReader._run_id rd) row)
    (filter (λ call, reporter_scope call.1.1 = reader_scope rd) calls
       ≫= accepted_rows).
Proof.
  induction calls as [|call calls IH]; [done|].
  rewrite bind_cons, filter_app, IH, (filter_cons _ call).
  case_decide as Hcall.
  - by rewrite bind_cons, filter_app.
  - replace (filter _ (accepted_rows call)) with (@nil Metric.row); [done|].
    symmetry. apply Permutation_nil_r, Permutation_nil_r.
    destruct (filter _ (accepted_rows call)) as [|row rows] eqn:Hf; [done|].
    assert (row ∈ row :: rows) as Hin by left. rewrite <-Hf in Hin.
    apply list_elem_of_filter in Hin as [[_ Hscope] Hin].
    by apply (accepted_rows_scope rd call row Hin) in Hscope.
Qed.

(** The reports of reporters with another experiment or another run leave a
    reader's series as if they had not been made, wherever they fall in the
    history. *)
Theorem read_ignores_other_scopes rd k calls db :
  SQLReader.read rd k (run_reports calls db) =
    SQLReader.read rd k
      (run_reports
         (filter (λ call, reporter_scope call.1.1 = reader_scope rd) calls) db)
  ∧ ∀ ks,
      SQLReader.read_all rd ks (run_reports calls db) !! k =
        SQLReader.read_all rd ks
          (run_reports
             (filter (λ call, reporter_scope call.1.1 = reader_scope rd) calls) db)
          !! k.
Proof.
  assert (SQLReader.read rd k (run_reports calls db) =
            SQLReader.read rd k
              (run_reports
                 (filter (λ call, reporter_scope call.1.1 = reader_scope rd) calls) db))
    as Hread.
  { rewrite !read_forget_id, !run_reports_forget_id, !filter_app.
    destruct (sqlite_file db && tables db); [|done].
    by rewrite filter_accepted_rows. }
  split; [done|]. intros ks. by rewrite !read_all_lookup, Hread.
Qed.
